(** * ExcelGrid: the calculation and addressing core of the spreadsheet grid

    A shallow embedding of [src/Components/ExcelGrid.tsx]: the column-label
    codec ([getColumnLabel], [parseReference]), the formula evaluator
    ([evaluateFormula]), the cell store update with its recalculation loop
    ([updateCell]), the read accessor ([getCellData]) and the viewport
    window ([visibleRange]).

    Conventions of the embedding.
    - A JavaScript string is a [string]: a sequence of code units, here the
      8-bit ones.
    - A JavaScript number that holds a row, a column, a pixel offset or a
      character code is an integer and is modelled as [Z]; the two agree as
      long as the values stay below 2^53.
    - A JavaScript number that is the value of a formula is an IEEE 754
      binary64 float, modelled with [spec_float] at precision 53.
    - The cell store is a JavaScript [Map]; its iteration order is the
      insertion order and the recalculation pass depends on it, so the
      store is an association list with unique keys.
    - [Function] runs any JavaScript text. The texts of plain arithmetic
      are evaluated here; for the others the engine is a parameter that
      gives a text its outcome, the value returned or an exception. A text
      whose outcome changes from run to run, or whose run does not end, is
      outside what the parameter describes.
    - The window size comes from the hook [useWindowDimensions], which is
      not part of the file: height and width are inputs of each render. *)

From Stdlib Require Import ZArith Lia List String Ascii Bool.
From Stdlib Require Import Floats.SpecFloat DecimalString.
From Stdlib Require DecimalPos DecimalZ.
Import ListNotations.

Local Open Scope string_scope.
Local Open Scope Z_scope.

(** ** Strings and character classes *)

Module JSString.

Definition charCode (c : ascii) : Z := Z.of_N (N_of_ascii c).

(** [String.fromCharCode], on the codes of 8-bit code units. *)
Definition fromCharCode (n : Z) : ascii := ascii_of_N (Z.to_N n).

(** The regular expression class [[A-Z]]. *)
Definition is_upper (c : ascii) : bool :=
  (65 <=? charCode c) && (charCode c <=? 90).

(** The regular expression class [\d]. *)
Definition is_digit (c : ascii) : bool :=
  (48 <=? charCode c) && (charCode c <=? 57).

Definition is_empty (s : string) : bool :=
  match s with EmptyString => true | String _ _ => false end.

Fixpoint all (p : ascii -> bool) (s : string) : bool :=
  match s with
  | EmptyString => true
  | String c s' => p c && all p s'
  end.

(** The longest prefix whose characters satisfy [p], and the rest: what a
    greedy [p+] or [p*] consumes. *)
Fixpoint span (p : ascii -> bool) (s : string) : string * string :=
  match s with
  | EmptyString => (EmptyString, EmptyString)
  | String c s' =>
      if p c then let (a, b) := span p s' in (String c a, b)
      else (EmptyString, s)
  end.

(** [startsWith] *)
Fixpoint startsWith (s pre : string) : bool :=
  match pre, s with
  | EmptyString, _ => true
  | String a pre', String b s' => Ascii.eqb a b && startsWith s' pre'
  | String _ _, EmptyString => false
  end.

(** [s.substring(1)] *)
Definition substring1 (s : string) : string :=
  match s with EmptyString => EmptyString | String _ s' => s' end.

Fixpoint fold_chars {A : Type} (f : A -> ascii -> A) (s : string) (a : A) : A :=
  match s with
  | EmptyString => a
  | String c s' => fold_chars f s' (f a c)
  end.

End JSString.
Import JSString.

(** ** Reference codec *)

Record CellPosition : Set := mkPos { row : Z; col : Z }.

(** The [while (col >= 0)] loop of [getColumnLabel]; [fuel] bounds the
    number of iterations. *)
Fixpoint getColumnLabel_loop (fuel : nat) (col : Z) (label : string) : string :=
  match fuel with
  | O => label
  | S fuel' =>
      if col >=? 0 then
        getColumnLabel_loop fuel' (col / 26 - 1)
          (String (fromCharCode (65 + Z.rem col 26)) label)
      else label
  end.

(** The loop body maps [col] to [floor(col / 26) - 1], so [col + 1]
    iterations always reach the exit test: lemma [getColumnLabel_fuel]
    shows that more fuel changes nothing. *)
Definition getColumnLabel (col : Z) : string :=
  getColumnLabel_loop (Z.to_nat (col + 1)) col "".

(** [ref.match(/^([A-Z]+)(\d+)$/)]: the two groups, or [None] for [null].
    The greedy letter run takes every leading capital; backtracking to a
    shorter run cannot help since the next character is then a capital. *)
Definition match_reference (ref : string) : option (string * string) :=
  let (colStr, rest) := span is_upper ref in
  let (rowStr, tail) := span is_digit rest in
  if negb (is_empty colStr) && negb (is_empty rowStr) && is_empty tail
  then Some (colStr, rowStr)
  else None.

(** [parseInt] on a run of decimal digits, as an integer. The number of
    the source is this integer as long as it is below 2^53, which covers
    the runs of up to 15 digits. *)
Definition parseInt (s : string) : Z :=
  fold_chars (fun n c => n * 10 + (charCode c - 48)) s 0.

(** The [for] loop over [colStr], on integers. The numbers of the source
    are these integers as long as they are below 2^53, which covers the
    runs of up to 11 letters. *)
Definition column_of_letters (colStr : string) : Z :=
  fold_chars (fun col c => col * 26 + (charCode c - 64)) colStr 0.

Definition parseReference (ref : string) : option CellPosition :=
  match match_reference ref with
  | None => None
  | Some (colStr, rowStr) =>
      let col := column_of_letters colStr in
      let col := col - 1 in
      let row := parseInt rowStr - 1 in
      Some {| row := row; col := col |}
  end.

(** The pattern of a cell reference as the specification words it: a
    non-empty run of capital letters followed by a non-empty run of
    decimal digits, and nothing else. *)
Definition matches_reference_pattern (s : string) : Prop :=
  exists letters digits,
    s = letters ++ digits /\
    letters <> "" /\ digits <> "" /\
    all is_upper letters = true /\ all is_digit digits = true.


(** ** JavaScript numbers

    The Number type of the host language: binary64 floats with
    round-to-nearest-even, their decimal notation ([toString]) and
    [parseFloat], following ECMA-262. *)

Module JSNumber.

Definition number : Set := spec_float.

Definition prec : Z := 53.
Definition emax : Z := 1024.

Definition NaN : number := S754_nan.
Definition Infinity : number := S754_infinity false.
Definition zero : number := S754_zero false.

Definition add : number -> number -> number := SFadd prec emax.
Definition sub : number -> number -> number := SFsub prec emax.
Definition mul : number -> number -> number := SFmul prec emax.
Definition div : number -> number -> number := SFdiv prec emax.
Definition neg : number -> number := SFopp.

(** [x === y] on two numbers: [NaN] differs from itself, [+0] equals [-0]. *)
Definition strict_eq (x y : number) : bool := SFeqb x y.

Definition isNaN (x : number) : bool :=
  match x with S754_nan => true | _ => false end.

(** The Number value of the non-negative decimal [m * 10^e]: the nearest
    float, ties to even. *)
Definition of_decimal (m e : Z) : number :=
  match m with
  | Zpos _ =>
      match e with
      | Zneg k =>
          let '(q, e2, l) := SFdiv_core_binary prec emax m 0 (10 ^ Zpos k) 0 in
          binary_round_aux prec emax false q e2 l
      | _ => binary_normalize prec emax (m * 10 ^ e) 0 false
      end
  | _ => zero
  end.

Definition of_Z (z : Z) : number := binary_normalize prec emax z 0 false.

(** Decimal notation of an integer, as [ToString] prints it. *)
Definition Z_to_string (z : Z) : string :=
  DecimalString.NilZero.string_of_int (Z.to_int z).

Fixpoint zeros (n : nat) : string :=
  match n with O => "" | S n' => String "0" (zeros n') end.

(** The number of decimal digits of a positive integer. *)
Definition decimal_length (z : Z) : Z :=
  Z.of_nat (String.length (Z_to_string z)).

(** The decimal exponent of the positive rational [p / q]: the [n] with
    [10^(n-1) <= p / q < 10^n]. It is the difference of the numbers of
    digits of [p] and [q], or one more. *)
Definition decimal_exponent (p q : Z) : Z :=
  let n := decimal_length p - decimal_length q in
  let below := if 0 <=? n then p <? q * 10 ^ n else p * 10 ^ (- n) <? q in
  if below then n else n + 1.

(** A candidate of [k] digits for the shortest notation of the positive
    float [x = p / q], whose decimal exponent is [n]: the digits [s] and the
    exponent, when [s * 10^(n-k)] reads back as [x]. The two decimals of
    [k] digits around [x] are tried, and the nearer one wins, the even one
    on a tie. *)
Definition shortest_candidate (x : number) (p q n k : Z) : option (Z * Z) :=
  let num := if 0 <=? k - n then p * 10 ^ (k - n) else p in
  let den := if 0 <=? k - n then q else q * 10 ^ (n - k) in
  let lo := num / den in
  let hi := lo + 1 in
  let reads_back (s n' : Z) := strict_eq (of_decimal s (n' - k)) x in
  let cand_lo := if (10 ^ (k - 1) <=? lo) && reads_back lo n then Some (lo, n) else None in
  let cand_hi :=
    if hi =? 10 ^ k
    then (if reads_back (10 ^ (k - 1)) (n + 1) then Some (10 ^ (k - 1), n + 1) else None)
    else (if reads_back hi n then Some (hi, n) else None) in
  match cand_lo, cand_hi with
  | Some l, Some h =>
      match 2 * num ?= (2 * lo + 1) * den with
      | Lt => Some l
      | Gt => Some h
      | Eq => if Z.even lo then Some l else Some h
      end
  | Some l, None => Some l
  | None, Some h => Some h
  | None, None => None
  end.

(** The least number of digits that reads back, from [k] upwards. *)
Fixpoint shortest_digits (fuel : nat) (x : number) (p q n k : Z) : Z * Z :=
  match fuel with
  | O => (0, 0)
  | S fuel' =>
      match shortest_candidate x p q n k with
      | Some r => r
      | None => shortest_digits fuel' x p q n (k + 1)
      end
  end.

Definition split_at (n : nat) (s : string) : string * string :=
  (substring 0 n s, substring n (String.length s - n) s).

(** Number::toString of a positive finite float with mantissa [m] and
    binary exponent [e]. *)
Definition toString_positive (m : positive) (e : Z) : string :=
  let x := S754_finite false m e in
  let p := if 0 <=? e then Zpos m * 2 ^ e else Zpos m in
  let q := if 0 <=? e then 1 else 2 ^ (- e) in
  let n0 := decimal_exponent p q in
  let '(s, n) := shortest_digits 17 x p q n0 1 in
  let digits := Z_to_string s in
  let k := Z.of_nat (String.length digits) in
  if (k <=? n) && (n <=? 21) then
    digits ++ zeros (Z.to_nat (n - k))
  else if (0 <? n) && (n <=? 21) then
    let (a, b) := split_at (Z.to_nat n) digits in a ++ "." ++ b
  else if (-6 <? n) && (n <=? 0) then
    "0." ++ zeros (Z.to_nat (- n)) ++ digits
  else
    let ex := n - 1 in
    let sign := if 0 <=? ex then "+" else "-" in
    let (a, b) := split_at 1 digits in
    (if k =? 1 then a else a ++ "." ++ b) ++ "e" ++ sign ++ Z_to_string (Z.abs ex).

(** Number::toString, radix 10. *)
Definition toString (x : number) : string :=
  match x with
  | S754_nan => "NaN"
  | S754_zero _ => "0"
  | S754_infinity s => if s then "-Infinity" else "Infinity"
  | S754_finite s m e =>
      (if s then "-" else "") ++ toString_positive m e
  end.

(** The longest prefix of [s] that is an unsigned decimal literal: digits,
    an optional fraction, an optional complete exponent part. Returns the
    digits of the integer part, the mantissa, the decimal exponent and the
    rest of the string. *)
Definition decimal_prefix (s : string) : option (string * Z * Z * string) :=
  let (int_part, r1) := span is_digit s in
  let '(frac_part, r2, has_dot) :=
    match r1 with
    | String "." r =>
        let (f, r') := span is_digit r in
        if is_empty int_part && is_empty f then (EmptyString, r1, false)
        else (f, r', true)
    | _ => (EmptyString, r1, false)
    end in
  if is_empty int_part && negb has_dot then None
  else
    let mantissa := parseInt (int_part ++ frac_part) in
    let scale := - Z.of_nat (String.length frac_part) in
    let exponent (r : string) : option (Z * string) :=
      let (negative, r') :=
        match r with
        | String "-" t => (true, t)
        | String "+" t => (false, t)
        | _ => (false, r)
        end in
      let (ds, rest) := span is_digit r' in
      if is_empty ds then None
      else Some (if negative then - parseInt ds else parseInt ds, rest) in
    match r2 with
    | String c r =>
        if (Ascii.eqb c "e" || Ascii.eqb c "E")%bool then
          match exponent r with
          | Some (ex, rest) => Some (int_part, mantissa, scale + ex, rest)
          | None => Some (int_part, mantissa, scale, r2)
          end
        else Some (int_part, mantissa, scale, r2)
    | EmptyString => Some (int_part, mantissa, scale, r2)
    end.

(** The white space [parseFloat] skips, among the 8-bit code units. *)
Definition is_whitespace (c : ascii) : bool :=
  let n := charCode c in
  ((9 <=? n) && (n <=? 13)) || (n =? 32) || (n =? 160).

Definition parseFloat (s : string) : number :=
  let t := snd (span is_whitespace s) in
  let (negative, t') :=
    match t with
    | String "-" r => (true, r)
    | String "+" r => (false, r)
    | _ => (false, t)
    end in
  let sign (x : number) := if negative then neg x else x in
  if startsWith t' "Infinity" then sign Infinity
  else
    match decimal_prefix t' with
    | Some (_, m, e, _) => sign (of_decimal m e)
    | None => NaN
    end.

End JSNumber.

(** ** Completions: a value, or a thrown exception *)

Inductive completion (A : Type) : Type :=
| Normal (a : A)
| Throw.
Arguments Normal {A} a.
Arguments Throw {A}.

Definition bind {A B : Type} (c : completion A) (k : A -> completion B) : completion B :=
  match c with
  | Normal a => k a
  | Throw => Throw
  end.

Notation "x <- c ;; k" := (bind c (fun x => k))
  (at level 61, c at next level, right associativity).

(** [try { body } catch { handler }] *)
Definition try_catch {A : Type} (body : completion A) (handler : completion A) : completion A :=
  match body with
  | Normal a => Normal a
  | Throw => handler
  end.

(** ** The arithmetic fragment of the host language

    [Function(body)()] compiles and runs [body] in the JavaScript engine.
    The embedding evaluates the bodies that are arithmetic over decimal
    literals, [+ - * /], parentheses and spaces; any other body is left to
    the engine, a parameter of the evaluator below. A text is given to the
    engine as soon as it contains anything whose reading is not arithmetic:
    [++], [--], [**], a comment opener, a literal with a leading zero. *)

Module Arithmetic.

Inductive token : Set :=
| TNum (x : JSNumber.number)
| TPlus | TMinus | TStar | TSlash
| TLParen | TRParen.

Definition leading_zero (int_part : string) : bool :=
  match int_part with
  | String "0" (String _ _) => true
  | _ => false
  end.

Fixpoint tokenize (fuel : nat) (s : string) : option (list token) :=
  match fuel with
  | O => None
  | S fuel' =>
      match s with
      | EmptyString => Some []
      | String c rest =>
          let next_is (d : ascii) :=
            match rest with String c' _ => Ascii.eqb c' d | EmptyString => false end in
          let single (t : token) := option_map (cons t) (tokenize fuel' rest) in
          if Ascii.eqb c " " then tokenize fuel' rest
          else if Ascii.eqb c "(" then single TLParen
          else if Ascii.eqb c ")" then single TRParen
          else if Ascii.eqb c "+" then
            if next_is "+"%char then None else single TPlus
          else if Ascii.eqb c "-" then
            if next_is "-"%char then None else single TMinus
          else if Ascii.eqb c "*" then
            if next_is "*"%char then None else single TStar
          else if Ascii.eqb c "/" then
            if (next_is "/"%char || next_is "*"%char)%bool then None else single TSlash
          else if (is_digit c || Ascii.eqb c ".")%bool then
            match JSNumber.decimal_prefix s with
            | Some (int_part, m, e, rest') =>
                if leading_zero int_part then None
                else option_map (cons (TNum (JSNumber.of_decimal m e)))
                                (tokenize fuel' rest')
            | None => None
            end
          else None
      end
  end.

Inductive expr : Set :=
| ENum (x : JSNumber.number)
| ENeg (e : expr)
| EPos (e : expr)
| EAdd (l r : expr)
| ESub (l r : expr)
| EMul (l r : expr)
| EDiv (l r : expr).

Fixpoint eval (e : expr) : JSNumber.number :=
  match e with
  | ENum x => x
  | ENeg e => JSNumber.neg (eval e)
  | EPos e => eval e
  | EAdd l r => JSNumber.add (eval l) (eval r)
  | ESub l r => JSNumber.sub (eval l) (eval r)
  | EMul l r => JSNumber.mul (eval l) (eval r)
  | EDiv l r => JSNumber.div (eval l) (eval r)
  end.

(** Recursive descent: additive over multiplicative over unary over
    primary, the binary operators associating to the left. *)
Fixpoint additive (fuel : nat) (ts : list token) : option (expr * list token) :=
  match fuel with
  | O => None
  | S fuel' =>
      match multiplicative fuel' ts with
      | Some (l, ts') => additive_rest fuel' l ts'
      | None => None
      end
  end
with additive_rest (fuel : nat) (l : expr) (ts : list token) : option (expr * list token) :=
  match fuel with
  | O => None
  | S fuel' =>
      match ts with
      | TPlus :: ts1 =>
          match multiplicative fuel' ts1 with
          | Some (r, ts2) => additive_rest fuel' (EAdd l r) ts2
          | None => None
          end
      | TMinus :: ts1 =>
          match multiplicative fuel' ts1 with
          | Some (r, ts2) => additive_rest fuel' (ESub l r) ts2
          | None => None
          end
      | _ => Some (l, ts)
      end
  end
with multiplicative (fuel : nat) (ts : list token) : option (expr * list token) :=
  match fuel with
  | O => None
  | S fuel' =>
      match unary fuel' ts with
      | Some (l, ts') => multiplicative_rest fuel' l ts'
      | None => None
      end
  end
with multiplicative_rest (fuel : nat) (l : expr) (ts : list token) : option (expr * list token) :=
  match fuel with
  | O => None
  | S fuel' =>
      match ts with
      | TStar :: ts1 =>
          match unary fuel' ts1 with
          | Some (r, ts2) => multiplicative_rest fuel' (EMul l r) ts2
          | None => None
          end
      | TSlash :: ts1 =>
          match unary fuel' ts1 with
          | Some (r, ts2) => multiplicative_rest fuel' (EDiv l r) ts2
          | None => None
          end
      | _ => Some (l, ts)
      end
  end
with unary (fuel : nat) (ts : list token) : option (expr * list token) :=
  match fuel with
  | O => None
  | S fuel' =>
      match ts with
      | TMinus :: ts1 =>
          match unary fuel' ts1 with
          | Some (e, ts2) => Some (ENeg e, ts2)
          | None => None
          end
      | TPlus :: ts1 =>
          match unary fuel' ts1 with
          | Some (e, ts2) => Some (EPos e, ts2)
          | None => None
          end
      | TNum x :: ts1 => Some (ENum x, ts1)
      | TLParen :: ts1 =>
          match additive fuel' ts1 with
          | Some (e, TRParen :: ts2) => Some (e, ts2)
          | _ => None
          end
      | _ => None
      end
  end.

(** The value of a text that is a whole arithmetic expression. The fuel
    covers every text; were it to run out, the text would be left to the
    engine like any text outside the fragment. *)
Definition evaluate (text : string) : option JSNumber.number :=
  match tokenize (S (String.length text)) text with
  | Some ts =>
      match additive (8 * S (List.length ts)) ts with
      | Some (e, []) => Some (eval e)
      | _ => None
      end
  | None => None
  end.

End Arithmetic.

(** ** Cell store *)

(** [number | string], the type of a cached formula result. *)
Inductive computed_value : Set :=
| CNumber (x : JSNumber.number)
| CString (s : string).

(** [interface CellData]; [None] is [undefined]. *)
Record CellData : Set := mkCell {
  value : string;
  formula : option string;
  computed : option computed_value
}.

(** [Map<string, CellData>] in insertion order. *)
Definition CellMap : Set := list (string * CellData).

Fixpoint Map_get (key : string) (cells : CellMap) : option CellData :=
  match cells with
  | [] => None
  | (k, c) :: rest => if String.eqb k key then Some c else Map_get key rest
  end.

(** [Map.prototype.set]: an existing key keeps its place, a new one goes
    last. *)
Fixpoint Map_set (key : string) (cell : CellData) (cells : CellMap) : CellMap :=
  match cells with
  | [] => [(key, cell)]
  | (k, c) :: rest =>
      if String.eqb k key then (k, cell) :: rest
      else (k, c) :: Map_set key cell rest
  end.

(** [Map.prototype.delete]: the keys of a [Map] are unique, so removing
    the entry of [key] is removing every pair that carries it. *)
Definition Map_delete (key : string) (cells : CellMap) : CellMap :=
  filter (fun entry => negb (String.eqb (fst entry) key)) cells.

(** The template [`${row}-${col}`]. *)
Definition cellKey (row col : Z) : string :=
  JSNumber.Z_to_string row ++ "-" ++ JSNumber.Z_to_string col.

(** [getCellData]: [cells.get(key) || null]; a cell object is never falsy. *)
Definition getCellData (cells : CellMap) (row col : Z) : option CellData :=
  Map_get (cellKey row col) cells.

(** [toString] of a cached result. *)
Definition computed_toString (v : computed_value) : string :=
  match v with
  | CNumber x => JSNumber.toString x
  | CString s => s
  end.

(** The strict inequality [computed !== prevComputed]; [undefined] is
    strictly equal to itself only. *)
Definition strict_neq (computed prevComputed : option computed_value) : bool :=
  match computed, prevComputed with
  | Some (CNumber x), Some (CNumber y) => negb (JSNumber.strict_eq x y)
  | Some (CString s), Some (CString t) => negb (String.eqb s t)
  | None, None => false
  | _, _ => true
  end.

(** Truthiness of [cell.formula]: defined and not the empty string. *)
Definition truthy (f : option string) : bool :=
  match f with
  | Some s => negb (is_empty s)
  | None => false
  end.

(** ** Expression evaluator *)

(** [expression.replace(/[A-Z]+\d+/g, callback)]: the matches are found
    from left to right; a run of capitals that no digit follows holds no
    match and is copied. Each step consumes a character, so the length of
    the text is fuel enough (lemma [replace_references_fuel]). *)
Fixpoint replace_references (fuel : nat) (callback : string -> string) (s : string) : string :=
  match fuel with
  | O => s
  | S fuel' =>
      match s with
      | EmptyString => EmptyString
      | String c rest =>
          let (letters, r1) := span is_upper s in
          if is_empty letters then String c (replace_references fuel' callback rest)
          else
            let (digits, r2) := span is_digit r1 in
            if is_empty digits then letters ++ replace_references fuel' callback r1
            else callback (letters ++ digits) ++ replace_references fuel' callback r2
      end
  end.

(** The text of the function body, [`"use strict"; return (${e})`]. *)
Definition dquote : ascii := ascii_of_nat 34.

Definition body_prefix : string :=
  String dquote ("use strict" ++ String dquote "; return ").

Fixpoint strip_prefix (pre s : string) : option string :=
  match pre, s with
  | EmptyString, _ => Some s
  | String a pre', String b s' =>
      if Ascii.eqb a b then strip_prefix pre' s' else None
  | String _ _, EmptyString => None
  end.

(** What [evaluateFormula] observes of the value a function body returns:
    whether [typeof result === "number"], and otherwise what
    [result.toString()] does. On [undefined] and [null] the call throws; on
    the built-in values it returns a string; a [toString] that the text
    itself defines returns what it likes, and [evaluateFormula] returns
    that unchecked. Of such results the numbers, the strings and
    [undefined] ([None], as for the text [{toString(){}}]) are followed
    here. *)
Inductive jsvalue : Type :=
| JNumber (x : JSNumber.number)
| JOther (toString_call : completion (option computed_value)).

Section Evaluator.

(** The JavaScript engine on the function bodies outside the arithmetic
    fragment: the value returned, or an exception (a [SyntaxError] from
    the constructor or an error raised by the call). A text that reads the
    clock or a random source has no single outcome, and the run of a text
    with a loop need not end: such texts are outside what [engine]
    describes. *)
Variable engine : string -> completion jsvalue.

(** [Function(body)()] *)
Definition Function_call (body : string) : completion jsvalue :=
  match strip_prefix body_prefix body with
  | Some text =>
      match Arithmetic.evaluate text with
      | Some x => Normal (JNumber x)
      | None => engine body
      end
  | None => engine body
  end.

(** The callback given to [replace]. *)
Definition substitute (cells : CellMap) (matched : string) : string :=
  match parseReference matched with
  | None => "0"
  | Some pos =>
      let cellKey := cellKey (row pos) (col pos) in
      match Map_get cellKey cells with
      | None => "0"
      | Some cell =>
          match computed cell with
          | Some v => computed_toString v
          | None =>
              let numValue := JSNumber.parseFloat (value cell) in
              if JSNumber.isNaN numValue then "0" else JSNumber.toString numValue
          end
      end
  end.

(** The [try] block of [evaluateFormula]:
    [typeof result === "number" ? result : result.toString()]. *)
Definition evaluateFormula_try (formula : string) (cells : CellMap)
    : completion (option computed_value) :=
  let expression := substring1 formula in
  let processedExpression :=
    replace_references (String.length expression) (substitute cells) expression in
  result <- Function_call (body_prefix ++ "(" ++ processedExpression ++ ")") ;;
  match result with
  | JNumber x => Normal (Some (CNumber x))
  | JOther toString_call => toString_call
  end.

(** [evaluateFormula]; the result is declared [number | string], and
    [None] is an [undefined] that the [try] block has let through. *)
Definition evaluateFormula (formula : string) (cells : CellMap)
    : completion (option computed_value) :=
  try_catch (evaluateFormula_try formula cells) (Normal (Some (CString "#ERROR"))).

(** ** Cell store update and recalculation *)

(** The callback of [newCells.forEach], run on [cell] while the store is
    [cells]: the cell as the callback leaves it, and whether it has set
    [changed]. *)
Definition visit (cells : CellMap) (cell : CellData) : completion (CellData * bool) :=
  match formula cell with
  | Some f =>
      if truthy (formula cell) then
        let prevComputed := computed cell in
        computed <- evaluateFormula f cells ;;
        if strict_neq computed prevComputed
        then Normal (mkCell (value cell) (formula cell) computed, true)
        else Normal (cell, false)
      else Normal (cell, false)
  | None => Normal (cell, false)
  end.

(** One [newCells.forEach] sweep, in insertion order. The entries already
    visited are in [visited] (last one first), [pending] are those to come;
    the callback sees the whole store as it stands, with the updates this
    sweep has made. Returns the store and the [changed] flag. *)
Fixpoint forEach_cells (visited pending : CellMap) (changed : bool) : completion (CellMap * bool) :=
  match pending with
  | [] => Normal (rev visited, changed)
  | (key, cell) :: rest =>
      r <- visit (rev_append visited pending) cell ;;
      forEach_cells ((key, fst r) :: visited) rest (snd r || changed)
  end.

(** One pass of the [while (changed)] loop: [changed = false], then the
    sweep. *)
Definition recalculation_pass (cells : CellMap) : completion (CellMap * bool) :=
  forEach_cells [] cells false.

(** How a call ends: it returns, it throws, or the loop is still running
    when the fuel of the model is spent. *)
Inductive outcome : Type :=
| Returned (cells : CellMap)
| Threw
| Running.

(** The [while (changed)] loop; [fuel] counts the passes allowed. *)
Fixpoint recalculate (fuel : nat) (cells : CellMap) : outcome :=
  match fuel with
  | O => Running
  | S fuel' =>
      match recalculation_pass cells with
      | Normal (cells', changed) =>
          if changed then recalculate fuel' cells' else Returned cells'
      | Throw => Threw
      end
  end.

(** The direct write of [updateCell], before the loop. [new Map(prev)] is
    a copy of the map, so [prev] itself stands for it here; a formula is
    evaluated before its own cell is stored. *)
Definition write_cell (prev : CellMap) (row col : Z) (value : string) : completion CellMap :=
  let newCells := prev in
  let key := cellKey row col in
  if String.eqb value "" then Normal (Map_delete key newCells)
  else
    let isFormula := startsWith value "=" in
    computed <-
      (if isFormula then evaluateFormula value newCells else Normal None) ;;
    let cellData := mkCell value (if isFormula then Some value else None) computed in
    Normal (Map_set key cellData newCells).

(** The state updater of [updateCell]. *)
Definition updateCell (fuel : nat) (prev : CellMap) (row col : Z) (value : string) : outcome :=
  match write_cell prev row col value with
  | Normal newCells => recalculate fuel newCells
  | Throw => Threw
  end.

(** The store after [n] passes, changed or not. *)
Fixpoint passes (n : nat) (cells : CellMap) : completion CellMap :=
  match n with
  | O => Normal cells
  | S n' =>
      r <- recalculation_pass cells ;; passes n' (fst r)
  end.

End Evaluator.

(** ** Viewport window *)

Definition CELL_WIDTH : Z := 100.
Definition CELL_HEIGHT : Z := 30.
Definition TOTAL_ROWS : Z := 10000.
Definition TOTAL_COLS : Z := 10000.

Record VisibleRange : Set := mkRange {
  rowLength : Z;
  startRow : Z;
  endRow : Z;
  startCol : Z;
  endCol : Z
}.

(** The function that [useMemo] runs to compute [visibleRange];
    [Math.floor(a / b)] is [a / b] on [Z] for the positive cell sizes. When
    the component runs it is the matter of [Component.useMemo_visibleRange]
    below. *)
Definition visibleRange (scrollTop scrollLeft height width : Z) : VisibleRange :=
  let startRow := scrollTop / CELL_HEIGHT in
  let endRow := Z.min (startRow + height / CELL_HEIGHT + 2) TOTAL_ROWS in
  let startCol := scrollLeft / CELL_WIDTH in
  let endCol := Z.min (startCol + width / CELL_WIDTH + 2) TOTAL_COLS in
  let rowLength := endRow - startRow in
  mkRange rowLength startRow endRow startCol endCol.

(** ** Statements of the specification *)





(** The window the specification asks for. *)
Definition window_in_bounds (r : VisibleRange) : Prop :=
  (0 <= startRow r <= endRow r /\ endRow r <= TOTAL_ROWS) /\
  (0 <= startCol r <= endCol r /\ endCol r <= TOTAL_COLS).

(** The declared bounds of a cell address. *)
Definition address_in_bounds (pos : CellPosition) : Prop :=
  0 <= row pos < 10000 /\ 0 <= col pos < 10000.

(** ** Auxiliary notions for the recalculation loop *)



(** What a sweep may do to one entry: the key, the raw text and the
    formula text stay, and the computed value is replaced only in a
    formula cell. *)
Definition cell_step (old new : string * CellData) : Prop :=
  fst new = fst old /\
  value (snd new) = value (snd old) /\
  formula (snd new) = formula (snd old) /\
  (snd new = snd old \/ formula (snd old) <> None).

Definition evolves (s s' : CellMap) : Prop := Forall2 cell_step s s'.

(** The result of [evaluateFormula] as a value: that of the [try] block,
    or the one of the [catch] block. *)
Definition evaluateFormula_value (engine : string -> completion jsvalue)
    (formula : string) (cells : CellMap) : option computed_value :=
  match evaluateFormula_try engine formula cells with
  | Normal v => v
  | Throw => Some (CString "#ERROR")
  end.

(** The cell a visit leaves and the flag it sets. *)
Definition visit_value (engine : string -> completion jsvalue)
    (cells : CellMap) (cell : CellData) : CellData * bool :=
  match formula cell with
  | Some f =>
      if truthy (formula cell) then
        let v := evaluateFormula_value engine f cells in
        if strict_neq v (computed cell)
        then (mkCell (value cell) (formula cell) v, true)
        else (cell, false)
      else (cell, false)
  | None => (cell, false)
  end.

(** A store that a pass leaves as it is. *)
Definition stable (engine : string -> completion jsvalue) (cells : CellMap) : Prop :=
  recalculation_pass engine cells = Normal (cells, false).

(** The text [evaluateFormula] hands to [Function]. *)
Definition function_body (formula : string) (cells : CellMap) : string :=
  let expression := substring1 formula in
  body_prefix ++ "(" ++
    replace_references (String.length expression) (substitute cells) expression ++ ")".


(** [getCell(address).computedValue] *)
Definition computed_at (cells : CellMap) (row col : Z) : option computed_value :=
  match getCellData cells row col with
  | Some cell => computed cell
  | None => None
  end.

(** An engine that rejects every text outside the arithmetic fragment. *)
Definition strict_engine (body : string) : completion jsvalue := Throw.



(** A plain literal cell. *)
Definition literal (text : string) : CellData := mkCell text None None.

(** A formula cell with a numeric cached value. *)
Definition formula_cell (text : string) (n : Z) : CellData :=
  mkCell text (Some text) (Some (CNumber (JSNumber.of_Z n))).


Definition nan_store : CellMap :=
  [("0-0", mkCell "=0/0" (Some "=0/0") (Some (CNumber JSNumber.NaN)))].




(** The text that replaces a reference, given what the store holds at the
    referenced address. *)
Definition effective_text (found : option CellData) : string :=
  match found with
  | None => "0"
  | Some cell =>
      match computed cell with
      | Some v => computed_toString v
      | None =>
          let numValue := JSNumber.parseFloat (value cell) in
          if JSNumber.isNaN numValue then "0" else JSNumber.toString numValue
      end
  end.

(** ** The component: state, event handlers and rendering *)

Module Component.

(** The state hooks of [VirtualizedExcelSheet]. *)
Record State : Type := mkState {
  cells : CellMap;
  selectedCell : CellPosition;
  editingCell : option CellPosition;
  editValue : string;
  scrollTop : Z;
  scrollLeft : Z
}.








Section Handlers.

Variable engine : string -> completion jsvalue.






End Handlers.


(** What [useMemo] keeps from one render to the next: the dependencies
    [[scrollTop, scrollLeft]] the window was computed for, and the
    window. *)
Record Memo : Set := mkMemo {
  memoScrollTop : Z;
  memoScrollLeft : Z;
  memoValue : VisibleRange
}.

(** [useMemo(() => ..., [scrollTop, scrollLeft])] in a render whose window
    size, as [useWindowDimensions] gives it, is [height] by [width]. The
    window is computed in the first render and in a render in which a
    dependency differs from that of the render before; [height] and [width]
    are no dependencies, so otherwise the window of the render before is
    kept, whatever they are now. *)
Definition useMemo_visibleRange (previous : option Memo)
    (scrollTop scrollLeft height width : Z) : Memo :=
  let computed :=
    mkMemo scrollTop scrollLeft (visibleRange scrollTop scrollLeft height width) in
  match previous with
  | Some memo =>
      if (memoScrollTop memo =? scrollTop) && (memoScrollLeft memo =? scrollLeft)
      then memo
      else computed
  | None => computed
  end.

(** Whether a render computes the window. *)
Definition computes_window (previous : option Memo) (scrollTop scrollLeft : Z) : Prop :=
  match previous with
  | Some memo => memoScrollTop memo <> scrollTop \/ memoScrollLeft memo <> scrollLeft
  | None => True
  end.


(** The label of the selected cell in the tool bar: the column label
    followed by the row number, counted from 1. *)
Definition addressLabel (st : State) : string :=
  getColumnLabel (col (selectedCell st)) ++
  JSNumber.Z_to_string (row (selectedCell st) + 1).


(** The [left] and [top] of the box that [renderCell] gives a cell. *)
Definition cell_left (col : Z) : Z := col * CELL_WIDTH.
Definition cell_top (row : Z) : Z := row * CELL_HEIGHT.

(** The cells rendered for a window, in order: the two nested
    [Array.from({ length }, ...)]; a negative length gives no element. *)
Definition renderedCells (range : VisibleRange) : list (Z * Z) :=
  flat_map
    (fun i =>
       let row := startRow range + Z.of_nat i in
       List.map
         (fun j => let col := startCol range + Z.of_nat j in (row, col))
         (seq 0 (Z.to_nat (endCol range - startCol range))))
    (seq 0 (Z.to_nat (endRow range - startRow range))).

End Component.

(** ** The references of a formula *)

(** The matches of [/[A-Z]+\d+/g] in a text, from left to right: the
    strings [replace_references] hands to its callback. *)
Fixpoint reference_matches (fuel : nat) (s : string) : list string :=
  match fuel with
  | O => []
  | S fuel' =>
      match s with
      | EmptyString => []
      | String c rest =>
          let (letters, r1) := span is_upper s in
          if is_empty letters then reference_matches fuel' rest
          else
            let (digits, r2) := span is_digit r1 in
            if is_empty digits then reference_matches fuel' r1
            else (letters ++ digits) :: reference_matches fuel' r2
      end
  end.

(** The addresses a formula refers to. *)
Definition referenced_cells (formula : string) : list CellPosition :=
  let expression := substring1 formula in
  flat_map
    (fun matched =>
       match parseReference matched with
       | Some pos => [pos]
       | None => []
       end)
    (reference_matches (String.length expression) expression).

(** A store in which no formula refers to a formula cell: every address a
    formula mentions is empty or holds a literal. *)
Definition one_level (cells : CellMap) : Prop :=
  forall key cell f pos,
    In (key, cell) cells -> formula cell = Some f ->
    In pos (referenced_cells f) ->
    match getCellData cells (row pos) (col pos) with
    | Some target => formula target = None
    | None => True
    end.

(** No formula of the store has the value [NaN]. *)
Definition no_NaN (engine : string -> completion jsvalue) (cells : CellMap) : Prop :=
  forall key cell f,
    In (key, cell) cells -> formula cell = Some f ->
    evaluateFormula engine f cells <> Normal (Some (CNumber JSNumber.NaN)).

(** A store in which every formula, with its references replaced, is a
    text of the arithmetic fragment whose value is not [NaN]: the engine
    that rejects every other text gives it a number. *)
Definition arithmetic_sheet (cells : CellMap) : Prop :=
  forall key cell f,
    In (key, cell) cells -> formula cell = Some f ->
    exists x,
      Function_call strict_engine (function_body f cells) = Normal (JNumber x) /\
      JSNumber.isNaN x = false.

(** * Properties *)

(** ** Strings *)

Section StringFacts.

Variable p : ascii -> bool.

Lemma span_spec (s : string) :
  s = fst (span p s) ++ snd (span p s) /\ all p (fst (span p s)) = true.
Proof.
  induction s as [|c s [IHeq IHall]]; simpl; [now split|].
  destruct (p c) eqn:Hc; simpl.
  - destruct (span p s) as [a b]; simpl in *.
    split; [now f_equal | now rewrite Hc].
  - now split.
Qed.

Lemma span_app (a b : string) :
  all p a = true ->
  span p (a ++ b) = (a ++ fst (span p b), snd (span p b)).
Proof.
  induction a as [|c a IH]; simpl; intros H.
  - now destruct (span p b).
  - apply andb_prop in H as [Hc Ha].
    rewrite Hc, (IH Ha). reflexivity.
Qed.

Lemma span_all (s : string) : all p s = true -> span p s = (s, "").
Proof.
  induction s as [|c s IH]; simpl; [reflexivity|].
  intros H. apply andb_prop in H as [Hc Hs].
  now rewrite Hc, (IH Hs).
Qed.

Lemma span_stop (c : ascii) (s : string) :
  p c = false -> span p (String c s) = ("", String c s).
Proof. intros H; simpl; now rewrite H. Qed.

End StringFacts.

Lemma span_length (p : ascii -> bool) (s : string) :
  (String.length (snd (span p s)) <= String.length s)%nat /\
  (fst (span p s) <> "" -> String.length (snd (span p s)) < String.length s)%nat.
Proof.
  induction s as [|c s [IH _]]; simpl; [split; [lia | congruence]|].
  destruct (p c); simpl.
  - destruct (span p s) as [a b]; simpl in *. split; intros; lia.
  - split; [lia | congruence].
Qed.

Lemma all_app (p : ascii -> bool) (a b : string) :
  all p (a ++ b) = all p a && all p b.
Proof.
  induction a as [|c a IH]; simpl; [reflexivity|].
  now rewrite IH, andb_assoc.
Qed.

Lemma fold_chars_app {A : Type} (f : A -> ascii -> A) (a b : string) (x : A) :
  fold_chars f (a ++ b) x = fold_chars f b (fold_chars f a x).
Proof. revert x; induction a as [|c a IH]; simpl; intros x; [reflexivity | apply IH]. Qed.

Lemma is_empty_true (s : string) : is_empty s = true <-> s = "".
Proof. destruct s; simpl; split; congruence. Qed.

Lemma is_empty_false (s : string) : is_empty s = false <-> s <> "".
Proof. destruct s; simpl; split; congruence. Qed.

Lemma app_empty_r (s : string) : s ++ "" = s.
Proof. induction s; simpl; congruence. Qed.

Lemma app_assoc_s (a b c : string) : (a ++ b) ++ c = a ++ (b ++ c).
Proof. induction a; simpl; congruence. Qed.

Lemma charCode_range (c : ascii) : 0 <= charCode c < 256.
Proof.
  unfold charCode. pose proof (N_ascii_bounded c). lia.
Qed.

Lemma charCode_fromCharCode (n : Z) : 0 <= n < 256 -> charCode (fromCharCode n) = n.
Proof.
  intros H. unfold charCode, fromCharCode.
  rewrite N_ascii_embedding by lia. lia.
Qed.

Lemma digit_not_upper (c : ascii) : is_digit c = true -> is_upper c = false.
Proof. unfold is_digit, is_upper. lia. Qed.

(** ** Reference codec *)

Lemma getColumnLabel_loop_app (fuel : nat) (c : Z) (label : string) :
  getColumnLabel_loop fuel c label = getColumnLabel_loop fuel c "" ++ label.
Proof.
  revert c label; induction fuel as [|fuel IH]; intros c label; simpl; [reflexivity|].
  destruct (c >=? 0); [|reflexivity].
  rewrite IH. rewrite (IH _ (String _ "")).
  now rewrite app_assoc_s.
Qed.

(** The loop leaves by its test, not by the fuel: any larger fuel gives the
    same label. *)
Lemma getColumnLabel_fuel (fuel : nat) (c : Z) (label : string) :
  c < Z.of_nat fuel ->
  getColumnLabel_loop fuel c label = getColumnLabel_loop (Z.to_nat (c + 1)) c label.
Proof.
  revert c label.
  assert (G : forall f1 f2 c label, c < Z.of_nat f1 -> c < Z.of_nat f2 ->
              getColumnLabel_loop f1 c label = getColumnLabel_loop f2 c label).
  { induction f1 as [|f1 IH]; intros f2 c label H1 H2.
    - destruct f2; simpl; [reflexivity|].
      destruct (c >=? 0) eqn:E; [lia | reflexivity].
    - destruct f2; simpl.
      + destruct (c >=? 0) eqn:E; [lia | reflexivity].
      + destruct (c >=? 0) eqn:E; [|reflexivity].
        assert (c / 26 <= c) by (apply Z.div_le_upper_bound; lia).
        apply IH; lia. }
  intros c label H. apply G; lia.
Qed.

Lemma getColumnLabel_loop_spec (fuel : nat) (c : Z) :
  0 <= c < Z.of_nat fuel ->
  let label := getColumnLabel_loop fuel c "" in
  column_of_letters label = c + 1 /\ all is_upper label = true /\ label <> "".
Proof.
  revert c; induction fuel as [|fuel IH]; intros c Hc; [lia|].
  cbn zeta. cbn [getColumnLabel_loop].
  replace (c >=? 0) with true by lia.
  rewrite getColumnLabel_loop_app.
  assert (Hq : c / 26 <= c) by (apply Z.div_le_upper_bound; lia).
  assert (Hq0 : 0 <= c / 26) by (apply Z.div_pos; lia).
  assert (Hr : 0 <= Z.rem c 26 < 26) by (apply Z.rem_bound_pos; lia).
  assert (Hdiv : c = 26 * (c / 26) + Z.rem c 26).
  { rewrite Z.rem_mod_nonneg by lia. apply Z.div_mod; lia. }
  assert (Hch : charCode (fromCharCode (65 + Z.rem c 26)) = 65 + Z.rem c 26)
    by (apply charCode_fromCharCode; lia).
  assert (Hup : is_upper (fromCharCode (65 + Z.rem c 26)) = true)
    by (unfold is_upper; rewrite Hch; lia).
  unfold column_of_letters. rewrite fold_chars_app, all_app.
  cbn [fold_chars all]. rewrite Hch, Hup.
  destruct (Z_lt_le_dec (c / 26 - 1) 0) as [Hneg|Hpos].
  - assert (E : getColumnLabel_loop fuel (c / 26 - 1) "" = "").
    { destruct fuel; simpl; [reflexivity|].
      replace (c / 26 - 1 >=? 0) with false by lia. reflexivity. }
    rewrite E. cbn [fold_chars all append andb]. repeat split; [lia | discriminate].
  - destruct (IH (c / 26 - 1)) as (Hv & Ha & Hn); [lia|].
    unfold column_of_letters in Hv. rewrite Hv, Ha.
    repeat split; [lia|].
    destruct (getColumnLabel_loop fuel (c / 26 - 1) ""); [congruence | discriminate].
Qed.

Lemma getColumnLabel_spec (c : Z) :
  0 <= c ->
  column_of_letters (getColumnLabel c) = c + 1 /\
  all is_upper (getColumnLabel c) = true /\ getColumnLabel c <> "".
Proof.
  intros Hc. apply (getColumnLabel_loop_spec (Z.to_nat (c + 1)) c). lia.
Qed.

Lemma match_reference_app (letters digits : string) :
  letters <> "" -> digits <> "" ->
  all is_upper letters = true -> all is_digit digits = true ->
  match_reference (letters ++ digits) = Some (letters, digits).
Proof.
  intros Hl Hd Hal Had. unfold match_reference.
  rewrite (span_app is_upper letters digits Hal).
  assert (E : span is_upper digits = ("", digits)).
  { destruct digits as [|c d]; [congruence|].
    simpl in Had. apply andb_prop in Had as [Hc _].
    apply span_stop, digit_not_upper, Hc. }
  rewrite E. simpl fst; simpl snd. rewrite app_empty_r.
  rewrite (span_all is_digit digits Had).
  apply is_empty_false in Hl, Hd. now rewrite Hl, Hd.
Qed.

Lemma match_reference_Some (ref colStr rowStr : string) :
  match_reference ref = Some (colStr, rowStr) ->
  ref = colStr ++ rowStr /\ colStr <> "" /\ rowStr <> "" /\
  all is_upper colStr = true /\ all is_digit rowStr = true.
Proof.
  unfold match_reference.
  destruct (span_spec is_upper ref) as [E1 A1].
  destruct (span is_upper ref) as [a r1]; simpl in *.
  destruct (span_spec is_digit r1) as [E2 A2].
  destruct (span is_digit r1) as [b r2]; simpl in *.
  destruct (is_empty a) eqn:Ha; simpl; [discriminate|].
  destruct (is_empty b) eqn:Hb; simpl; [discriminate|].
  destruct (is_empty r2) eqn:Hr; [|discriminate].
  intros H; injection H as <- <-.
  apply is_empty_true in Hr; subst r2. rewrite app_empty_r in E2; subst r1.
  apply is_empty_false in Ha, Hb. auto.
Qed.

Lemma parseReference_matches (ref : string) :
  parseReference ref <> None <-> matches_reference_pattern ref.
Proof.
  unfold parseReference, matches_reference_pattern. split.
  - destruct (match_reference ref) as [[c r]|] eqn:E; [|congruence].
    intros _. exists c, r. now apply match_reference_Some.
  - intros (l & d & -> & Hl & Hd & Hal & Had).
    now rewrite (match_reference_app l d Hl Hd Hal Had).
Qed.

Lemma parseInt_nonneg (s : string) : all is_digit s = true -> 0 <= parseInt s.
Proof.
  unfold parseInt. generalize (Z.le_refl 0). generalize 0 at 2 4 as acc.
  induction s as [|c s IH]; simpl; intros acc Hacc H; [exact Hacc|].
  apply andb_prop in H as [Hc Hs]. apply IH; [|exact Hs].
  unfold is_digit in Hc. lia.
Qed.

Lemma column_of_letters_pos (s : string) :
  s <> "" -> all is_upper s = true -> 1 <= column_of_letters s.
Proof.
  unfold column_of_letters. intros Hne Hall.
  assert (G : forall t acc, 0 <= acc -> all is_upper t = true ->
              acc <= fold_chars (fun col c => col * 26 + (charCode c - 64)) t acc).
  { induction t as [|c t IH]; simpl; intros acc Hacc H; [lia|].
    apply andb_prop in H as [Hc Ht]. unfold is_upper in Hc.
    etransitivity; [|apply IH; [lia | exact Ht]]. lia. }
  destruct s as [|c s]; [congruence|]. simpl in *.
  apply andb_prop in Hall as [Hc Hs]. unfold is_upper in Hc.
  etransitivity; [|apply G; [lia | exact Hs]]. lia.
Qed.

(** C4: for every column index [c >= 0], decoding the label of [c] with the
    row digit 1 appended gives back an address whose column is [c] (and
    whose row is 0). *)
Theorem getColumnLabel_roundtrip (c : Z) :
  0 <= c ->
  exists pos,
    parseReference (getColumnLabel c ++ "1") = Some pos /\
    col pos = c /\ row pos = 0.
Proof.
  intros Hc. destruct (getColumnLabel_spec c Hc) as (Hv & Hall & Hne).
  unfold parseReference.
  rewrite (match_reference_app (getColumnLabel c) "1" Hne); try easy.
  eexists; split; [reflexivity|]. simpl. split; [lia | reflexivity].
Qed.

Lemma getColumnLabel_roundtrip_witness :
  0 <= 702 /\
  exists pos,
    parseReference (getColumnLabel 702 ++ "1") = Some pos /\
    col pos = 702 /\ row pos = 0.
Proof. split; [lia | apply (getColumnLabel_roundtrip 702); lia]. Defined.

(** C8, as stated, fails: [A0] decodes to row -1, outside the declared
    bounds. *)
Lemma parseReference_out_of_bounds :
  ~ (forall ref pos, parseReference ref = Some pos -> address_in_bounds pos).
Proof.
  intros H. specialize (H "A0" (mkPos (-1) 0) eq_refl).
  destruct H as [[H _] _]. simpl in H. lia.
Qed.

(** C8, amended: a decoded address has a row of at least -1 and a column
    of at least 0. The upper bounds are not kept either: [A10001] decodes
    to row 10000 and [NTQ1] to column 10000. *)
Theorem parseReference_lower_bounds :
  (forall ref pos,
     parseReference ref = Some pos -> -1 <= row pos /\ 0 <= col pos) /\
  parseReference "A10001" = Some (mkPos 10000 0) /\
  parseReference "NTQ1" = Some (mkPos 0 10000).
Proof.
  split; [|split; reflexivity].
  intros ref pos. unfold parseReference.
  destruct (match_reference ref) as [[c r]|] eqn:E; [|discriminate].
  apply match_reference_Some in E as (_ & Hc & _ & Hac & Har).
  intros H; injection H as <-. simpl.
  pose proof (parseInt_nonneg r Har).
  pose proof (column_of_letters_pos c Hc Hac). lia.
Qed.

Lemma parseReference_lower_bounds_witness :
  parseReference "ZZZZ12345" = Some (mkPos 12344 475253) /\
  -1 <= 12344 /\ 0 <= 475253.
Proof.
  split; [reflexivity|].
  apply (proj1 parseReference_lower_bounds "ZZZZ12345" (mkPos 12344 475253)).
  reflexivity.
Defined.

(** C9: on a string that does not match the pattern of a cell reference
    the decoder returns none; being a total function it raises nothing. *)
Theorem parseReference_mismatch (ref : string) :
  ~ matches_reference_pattern ref -> parseReference ref = None.
Proof.
  intros H. destruct (parseReference ref) eqn:E; [|reflexivity].
  exfalso. apply H, parseReference_matches. congruence.
Qed.

Lemma parseReference_mismatch_witness :
  ~ matches_reference_pattern "a1:B" /\ parseReference "a1:B" = None.
Proof.
  assert (H : ~ matches_reference_pattern "a1:B").
  { intros M. apply parseReference_matches in M. apply M. reflexivity. }
  split; [exact H | apply (parseReference_mismatch "a1:B" H)].
Defined.

(** ** Viewport window *)

(** C5, as stated, fails: a negative scroll offset gives a negative first
    row, and an offset past the last row gives a first row above the last
    one. *)
Lemma visibleRange_not_clamped :
  ~ (forall scrollTop scrollLeft height width,
       window_in_bounds (visibleRange scrollTop scrollLeft height width)).
Proof.
  intros H. destruct (H (-30) 0 600 800) as [[[H0 _] _] _].
  vm_compute in H0. now apply H0.
Qed.

(** C5, amended: for every input the last row and the last column of
    the window are at most the totals; for offsets within the grid and a
    viewport of non-negative size the whole window is in bounds. *)
Theorem visibleRange_in_bounds (scrollTop scrollLeft height width : Z) :
  (endRow (visibleRange scrollTop scrollLeft height width) <= TOTAL_ROWS /\
   endCol (visibleRange scrollTop scrollLeft height width) <= TOTAL_COLS) /\
  (0 <= scrollTop < (TOTAL_ROWS + 1) * CELL_HEIGHT ->
   0 <= scrollLeft < (TOTAL_COLS + 1) * CELL_WIDTH ->
   0 <= height -> 0 <= width ->
   window_in_bounds (visibleRange scrollTop scrollLeft height width)).
Proof.
  unfold window_in_bounds, visibleRange, TOTAL_ROWS, TOTAL_COLS, CELL_HEIGHT, CELL_WIDTH.
  cbn [startRow endRow startCol endCol].
  split; [lia|]. intros Ht Hl Hh Hw.
  assert (0 <= scrollTop / 30 <= 10000).
  { split; [apply Z.div_pos; lia|]. apply Z.lt_succ_r, Z.div_lt_upper_bound; lia. }
  assert (0 <= scrollLeft / 100 <= 10000).
  { split; [apply Z.div_pos; lia|]. apply Z.lt_succ_r, Z.div_lt_upper_bound; lia. }
  assert (0 <= height / 30) by (apply Z.div_pos; lia).
  assert (0 <= width / 100) by (apply Z.div_pos; lia).
  lia.
Qed.

Lemma visibleRange_in_bounds_witness :
  0 <= 299400 < (TOTAL_ROWS + 1) * CELL_HEIGHT /\
  0 <= 999200 < (TOTAL_COLS + 1) * CELL_WIDTH /\
  window_in_bounds (visibleRange 299400 999200 600 800).
Proof.
  assert (H1 : 0 <= 299400 < (TOTAL_ROWS + 1) * CELL_HEIGHT)
    by (unfold TOTAL_ROWS, CELL_HEIGHT; lia).
  assert (H2 : 0 <= 999200 < (TOTAL_COLS + 1) * CELL_WIDTH)
    by (unfold TOTAL_COLS, CELL_WIDTH; lia).
  split; [exact H1|]. split; [exact H2|].
  apply (proj2 (visibleRange_in_bounds 299400 999200 600 800) H1 H2); lia.
Defined.

(** ** Cell store *)

Local Open Scope list_scope.

Lemma Map_get_app (k : string) (a b : CellMap) :
  Map_get k (a ++ b) =
  match Map_get k a with Some c => Some c | None => Map_get k b end.
Proof.
  induction a as [|[k' c] a IH]; simpl; [reflexivity|].
  destruct (String.eqb k' k); [reflexivity | exact IH].
Qed.




Lemma Map_get_set_same (k : string) (cell : CellData) (cells : CellMap) :
  Map_get k (Map_set k cell cells) = Some cell.
Proof.
  induction cells as [|[k' c] cells IH]; simpl.
  - now rewrite String.eqb_refl.
  - destruct (String.eqb k' k) eqn:E; simpl; rewrite E; [reflexivity | exact IH].
Qed.

Lemma Map_get_set_other (k k' : string) (cell : CellData) (cells : CellMap) :
  k' <> k -> Map_get k' (Map_set k cell cells) = Map_get k' cells.
Proof.
  intros Hne. induction cells as [|[k0 c] cells IH]; simpl.
  - apply String.eqb_neq in Hne. rewrite String.eqb_sym in Hne. now rewrite Hne.
  - destruct (String.eqb_spec k0 k) as [->|H0]; simpl.
    + destruct (String.eqb_spec k k'); [congruence | reflexivity].
    + now rewrite IH.
Qed.

Lemma Map_set_In (k : string) (cell : CellData) (cells : CellMap) (e : string * CellData) :
  In e (Map_set k cell cells) -> e = (k, cell) \/ In e cells.
Proof.
  induction cells as [|[k' c] cells IH]; simpl.
  - intros [H|[]]; auto.
  - destruct (String.eqb_spec k' k) as [->|Hne]; simpl.
    + intros [H|H]; auto.
    + intros [H|H]; auto. destruct (IH H); auto.
Qed.

(** ** Evolution of a store under sweeps *)

Lemma cell_step_refl (e : string * CellData) : cell_step e e.
Proof. unfold cell_step; tauto. Qed.

Lemma cell_step_trans (a b c : string * CellData) :
  cell_step a b -> cell_step b c -> cell_step a c.
Proof.
  unfold cell_step. intros (K1 & V1 & F1 & C1) (K2 & V2 & F2 & C2).
  repeat split; try congruence.
  destruct C2 as [E2|N2].
  - rewrite E2. exact C1.
  - right. congruence.
Qed.

Lemma evolves_refl (s : CellMap) : evolves s s.
Proof. induction s; constructor; auto using cell_step_refl. Qed.

Lemma evolves_trans (a b c : CellMap) : evolves a b -> evolves b c -> evolves a c.
Proof.
  intros H; revert c.
  induction H as [|x y a b Hxy _ IH]; intros c Hc; inversion Hc; subst; constructor.
  - eapply cell_step_trans; eauto.
  - now apply IH.
Qed.

Lemma evolves_app (a a' b b' : CellMap) :
  evolves a a' -> evolves b b' -> evolves (a ++ b) (a' ++ b').
Proof. apply Forall2_app. Qed.


Lemma evolves_get (s s' : CellMap) (k : string) :
  evolves s s' ->
  match Map_get k s with
  | Some c => exists c', Map_get k s' = Some c' /\ cell_step (k, c) (k, c')
  | None => Map_get k s' = None
  end.
Proof.
  induction 1 as [|[k1 c1] [k2 c2] s s' Hst _ IH]; simpl; [reflexivity|].
  pose proof Hst as (K & V & F & C). simpl in K; subst k2.
  destruct (String.eqb k1 k); [|exact IH].
  exists c2. split; [reflexivity|]. exact (conj eq_refl (conj V (conj F C))).
Qed.

Lemma evolves_get_literal (s s' : CellMap) (k : string) (c : CellData) :
  evolves s s' -> Map_get k s = Some c -> formula c = None -> Map_get k s' = Some c.
Proof.
  intros E G F. pose proof (evolves_get s s' k E) as H. rewrite G in H.
  destruct H as (c' & G' & _ & _ & _ & [Heq|N]); simpl in *; congruence.
Qed.


(** ** The evaluator catches every exception *)

Section EvaluatorFacts.

Variable engine : string -> completion jsvalue.

Lemma evaluateFormula_normal (f : string) (cells : CellMap) :
  evaluateFormula engine f cells = Normal (evaluateFormula_value engine f cells).
Proof.
  unfold evaluateFormula, evaluateFormula_value, try_catch.
  now destruct (evaluateFormula_try engine f cells).
Qed.

Lemma visit_normal (cells : CellMap) (cell : CellData) :
  visit engine cells cell = Normal (visit_value engine cells cell).
Proof.
  unfold visit, visit_value.
  destruct (formula cell) as [f|]; [|reflexivity].
  destruct (truthy (Some f)); [|reflexivity].
  rewrite evaluateFormula_normal. simpl.
  now destruct (strict_neq _ _).
Qed.

Lemma visit_value_step (cells : CellMap) (k : string) (cell : CellData) :
  cell_step (k, cell) (k, fst (visit_value engine cells cell)).
Proof.
  unfold visit_value.
  destruct (formula cell) as [f|] eqn:F; [|apply cell_step_refl].
  destruct (truthy (Some f)); [|apply cell_step_refl].
  destruct (strict_neq _ _); [|apply cell_step_refl].
  unfold cell_step; simpl. repeat split; auto.
  right. congruence.
Qed.

Lemma visit_value_unchanged (cells : CellMap) (cell : CellData) :
  snd (visit_value engine cells cell) = false ->
  fst (visit_value engine cells cell) = cell.
Proof.
  unfold visit_value.
  destruct (formula cell) as [f|]; [|reflexivity].
  destruct (truthy (Some f)); [|reflexivity].
  destruct (strict_neq _ _); [discriminate | reflexivity].
Qed.

(** A sweep does not throw. It changes computed values of formula cells
    only; it reports no change exactly when it has changed nothing; and
    the entry found under a key has been visited while the store was some
    evolution of the initial one. *)
Lemma forEach_cells_spec (pending visited : CellMap) (changed : bool) :
  exists pending' changed',
    forEach_cells engine visited pending changed
      = Normal (rev visited ++ pending', changed') /\
    evolves pending pending' /\
    (changed' = false -> changed = false /\ pending' = pending) /\
    (changed = true -> changed' = true) /\
    (forall k c, Map_get k pending = Some c ->
       exists mid, evolves (rev visited ++ pending) mid /\
                   Map_get k pending' = Some (fst (visit_value engine mid c))).
Proof.
  revert visited changed.
  induction pending as [|[key cell] rest IH]; intros visited changed; simpl.
  - exists [], changed. rewrite app_nil_r.
    repeat split; auto; try constructor. discriminate.
  - rewrite visit_normal. simpl. rewrite rev_append_rev.
    set (mid0 := rev visited ++ (key, cell) :: rest).
    set (r := visit_value engine mid0 cell).
    destruct (IH ((key, fst r) :: visited) (snd r || changed)%bool)
      as (rest' & ch' & E & Ev & Hunch & Hch & Hget).
    exists ((key, fst r) :: rest'), ch'.
    assert (Hstep : cell_step (key, cell) (key, fst r))
      by apply visit_value_step.
    repeat split.
    + rewrite E. simpl. now rewrite <- app_assoc.
    + constructor; assumption.
    + destruct (Hunch H) as [Hor _]. now apply orb_false_elim in Hor.
    + destruct (Hunch H) as [Hor ->]. apply orb_false_elim in Hor as [Hr _].
      pose proof (visit_value_unchanged mid0 cell Hr) as Hu.
      fold r in Hu. now rewrite Hu.
    + intros ->. apply Hch. apply orb_true_r.
    + intros k c. simpl. destruct (String.eqb key k).
      * intros [= <-]. exists mid0. split; [apply evolves_refl | reflexivity].
      * intros G. destruct (Hget k c G) as (mid & Em & Gm).
        exists mid. split; [|exact Gm].
        eapply evolves_trans; [|exact Em].
        simpl. rewrite <- app_assoc. simpl. unfold mid0.
        apply evolves_app; [apply evolves_refl|].
        constructor; [exact Hstep | apply evolves_refl].
Qed.

Lemma recalculation_pass_spec (cells : CellMap) :
  exists cells' changed,
    recalculation_pass engine cells = Normal (cells', changed) /\
    evolves cells cells' /\
    (changed = false -> cells' = cells) /\
    (forall k c, Map_get k cells = Some c ->
       exists mid, evolves cells mid /\
                   Map_get k cells' = Some (fst (visit_value engine mid c))).
Proof.
  destruct (forEach_cells_spec cells [] false)
    as (cells' & ch & E & Ev & Hunch & _ & Hget).
  exists cells', ch. repeat split; auto.
  intros H. now destruct (Hunch H).
Qed.


(** The loop never throws, and it returns only a store that it has found
    stable, one of those the passes go through. *)
Lemma recalculate_spec (fuel : nat) (cells : CellMap) :
  match recalculate engine fuel cells with
  | Returned cells' =>
      stable engine cells' /\ evolves cells cells' /\
      exists n, (n < fuel)%nat /\ passes engine n cells = Normal cells'
  | Threw => False
  | Running => True
  end.
Proof.
  revert cells; induction fuel as [|fuel IH]; intros cells; simpl; [exact I|].
  destruct (recalculation_pass_spec cells) as (c1 & ch & E & Ev & Hunch & _).
  rewrite E. destruct ch.
  - specialize (IH c1). destruct (recalculate engine fuel c1); auto.
    destruct IH as (St & Ev1 & n & Hn & Hp).
    split; [exact St|]. split; [eapply evolves_trans; eauto|].
    exists (S n). split; [lia|]. simpl. now rewrite E.
  - specialize (Hunch eq_refl); subst c1.
    split; [exact E|]. split; [apply evolves_refl|].
    exists 0%nat. split; [lia | reflexivity].
Qed.


End EvaluatorFacts.

(** ** Keys stay unique *)





(** ** Expression evaluator *)

Local Open Scope string_scope.
Local Open Scope Z_scope.

(** The replacement loop ends by consuming the text, not by the fuel. *)
Lemma replace_references_fuel (callback : string -> string) (fuel : nat) (s : string) :
  (String.length s <= fuel)%nat ->
  replace_references fuel callback s
  = replace_references (String.length s) callback s.
Proof.
  assert (G : forall f1 f2 t, (String.length t <= f1)%nat -> (String.length t <= f2)%nat ->
              replace_references f1 callback t = replace_references f2 callback t).
  { induction f1 as [|f1 IH]; intros f2 t H1 H2.
    - destruct t; simpl in H1; [|lia]. now destruct f2.
    - destruct f2 as [|f2]; [destruct t; simpl in H2; [reflexivity | lia]|].
      destruct t as [|c rest]; [reflexivity|].
      cbn [replace_references].
      pose proof (span_length is_upper (String c rest)) as [_ L1].
      destruct (span is_upper (String c rest)) as [letters r1].
      cbn [fst snd] in L1. simpl String.length in H1, H2, L1.
      destruct (is_empty letters) eqn:El.
      + f_equal. apply IH; lia.
      + apply is_empty_false in El. specialize (L1 El).
        pose proof (span_length is_digit r1) as [L2 _].
        destruct (span is_digit r1) as [digits r2]. cbn [snd] in L2.
        destruct (is_empty digits); f_equal; apply IH; lia. }
  intros H. apply G; [exact H | apply le_n].
Qed.

Section EvaluatorClaims.

Variable engine : string -> completion jsvalue.

Lemma evaluateFormula_try_body (formula : string) (cells : CellMap) :
  evaluateFormula_try engine formula cells =
  (result <- Function_call engine (function_body formula cells) ;;
   match result with
   | JNumber x => Normal (Some (CNumber x))
   | JOther toString_call => toString_call
   end).
Proof. reflexivity. Qed.

Lemma function_body_no_reference (cells : CellMap) :
  function_body "=1/0" cells = body_prefix ++ "(1/0)" /\
  function_body "=0/0" cells = body_prefix ++ "(0/0)".
Proof. split; reflexivity. Qed.

Lemma evaluateFormula_one_over_zero (cells : CellMap) :
  evaluateFormula engine "=1/0" cells = Normal (Some (CNumber JSNumber.Infinity)).
Proof.
  unfold evaluateFormula. rewrite evaluateFormula_try_body.
  rewrite (proj1 (function_body_no_reference cells)). reflexivity.
Qed.

End EvaluatorClaims.





(** C3, as stated, fails: the formula [=1/0] evaluates to the number
    [Infinity], not to the error marker. *)
Lemma evaluateFormula_division_by_zero :
  ~ (forall (engine : string -> completion jsvalue) (cells : CellMap),
       evaluateFormula engine "=1/0" cells = Normal (Some (CString "#ERROR"))).
Proof.
  intros H. specialize (H strict_engine []).
  rewrite evaluateFormula_one_over_zero in H. discriminate.
Qed.

(** C3, amended: on every sheet [=1/0] evaluates to the number [Infinity]
    and [=0/0] to [NaN], without an exception; a number that the evaluation
    produces is returned as it is, finite or not; a formula whose
    evaluation throws yields [#ERROR]. *)
Theorem evaluateFormula_nonfinite (engine : string -> completion jsvalue)
    (cells : CellMap) :
  evaluateFormula engine "=1/0" cells = Normal (Some (CNumber JSNumber.Infinity)) /\
  evaluateFormula engine "=0/0" cells = Normal (Some (CNumber JSNumber.NaN)) /\
  (forall formula x,
     Function_call engine (function_body formula cells) = Normal (JNumber x) ->
     evaluateFormula engine formula cells = Normal (Some (CNumber x))) /\
  (forall formula,
     Function_call engine (function_body formula cells) = Throw ->
     evaluateFormula engine formula cells = Normal (Some (CString "#ERROR"))).
Proof.
  split; [apply evaluateFormula_one_over_zero|].
  split; [|split].
  - unfold evaluateFormula. rewrite evaluateFormula_try_body.
    rewrite (proj2 (function_body_no_reference cells)). reflexivity.
  - intros formula x H. unfold evaluateFormula.
    rewrite evaluateFormula_try_body. now rewrite H.
  - intros formula H. unfold evaluateFormula.
    rewrite evaluateFormula_try_body. now rewrite H.
Qed.

Lemma evaluateFormula_nonfinite_witness :
  Function_call strict_engine (function_body "=-1/0" [])
    = Normal (JNumber (JSNumber.neg JSNumber.Infinity)) /\
  evaluateFormula strict_engine "=-1/0" []
    = Normal (Some (CNumber (JSNumber.neg JSNumber.Infinity))).
Proof.
  split; [reflexivity|].
  apply (proj1 (proj2 (proj2 (evaluateFormula_nonfinite strict_engine [])))).
  reflexivity.
Defined.
(** ** Cell store update *)

Section StoreClaims.

Variable engine : string -> completion jsvalue.





Lemma evolves_absent (s s' : CellMap) (k : string) :
  evolves s s' -> Map_get k s = None -> Map_get k s' = None.
Proof.
  intros Ev G. pose proof (evolves_get s s' k Ev) as H. now rewrite G in H.
Qed.




End StoreClaims.










(** ** Recalculation loop *)

Section RecalculationFacts.

Variable engine : string -> completion jsvalue.







(** The cell [A1 = "=0/0"]: its value [NaN] differs from itself under
    [!==], so every pass reports a change although none is visible. *)
Lemma nan_pass :
  recalculation_pass engine nan_store = Normal (nan_store, true).
Proof. reflexivity. Qed.

Lemma nan_forever (fuel : nat) :
  updateCell engine fuel [] 0 0 "=0/0" = Running.
Proof.
  unfold updateCell.
  change (write_cell engine [] 0 0 "=0/0") with (Normal nan_store).
  induction fuel as [|fuel IH]; [reflexivity|].
  cbn [recalculate]. now rewrite nan_pass.
Qed.




End RecalculationFacts.




(** ** Propagation through one reference *)

Lemma strict_eq_finite (s : bool) (m : positive) (e : Z) (y : JSNumber.number) :
  JSNumber.strict_eq (S754_finite s m e) y = true -> y = S754_finite s m e.
Proof.
  unfold JSNumber.strict_eq, SFeqb, SFcompare.
  destruct y as [s0|s0| |s' m' e']; try (destruct s; discriminate);
    try (destruct s0; discriminate).
  change (PosDef.Pos.compare_cont Eq m m') with (Pos.compare m m').
  destruct (Z.compare_spec e e') as [->|Hlt|Hgt];
    destruct s, s'; try discriminate;
    destruct (Pos.compare_spec m m') as [->| |]; try discriminate; reflexivity.
Qed.

Section Propagation.

Variable engine : string -> completion jsvalue.

Lemma substitute_A1 (cells : CellMap) :
  substitute cells "A1" = effective_text (Map_get "0-0" cells).
Proof. reflexivity. Qed.

Lemma function_body_A1_times_2 (cells : CellMap) :
  function_body "=A1*2" cells
  = body_prefix ++ "(" ++ (effective_text (Map_get "0-0" cells) ++ "*2") ++ ")".
Proof. unfold function_body. now rewrite <- substitute_A1. Qed.

(** The value of [=A1*2] depends on the store through A1 only. *)
Lemma evaluateFormula_A1_times_2 (cells : CellMap) (a1 : CellData) :
  Map_get "0-0" cells = Some a1 ->
  evaluateFormula_value engine "=A1*2" cells
  = evaluateFormula_value engine "=A1*2" [("0-0", a1)].
Proof.
  intros G. unfold evaluateFormula_value.
  rewrite !evaluateFormula_try_body, !function_body_A1_times_2.
  now rewrite G.
Qed.

(** One pass over a store where A1 is a literal and B1 holds [=A1*2]
    leaves in B1 the value of the formula, when that is a finite number
    other than zero. *)
Lemma pass_A1_times_2 (cells cells' : CellMap) (changed : bool)
    (text : string) (b : CellData) (s : bool) (m : positive) (e : Z) :
  Map_get "0-0" cells = Some (literal text) ->
  Map_get "0-1" cells = Some b ->
  formula b = Some "=A1*2" ->
  evaluateFormula_value engine "=A1*2" [("0-0", literal text)]
    = Some (CNumber (S754_finite s m e)) ->
  recalculation_pass engine cells = Normal (cells', changed) ->
  Map_get "0-0" cells' = Some (literal text) /\
  exists b', Map_get "0-1" cells' = Some b' /\
             formula b' = Some "=A1*2" /\
             computed b' = Some (CNumber (S754_finite s m e)).
Proof.
  intros GA GB FB EV P.
  destruct (recalculation_pass_spec engine cells) as (c1 & ch & E & Ev & _ & Hget).
  rewrite P in E. injection E as <- <-.
  split; [now apply (evolves_get_literal cells cells' "0-0" (literal text))|].
  destruct (Hget "0-1" b GB) as (mid & Em & Gm).
  exists (fst (visit_value engine mid b)). split; [exact Gm|].
  assert (GAm : Map_get "0-0" mid = Some (literal text))
    by now apply (evolves_get_literal cells mid "0-0" (literal text)).
  unfold visit_value. rewrite FB. cbn [truthy is_empty negb].
  rewrite (evaluateFormula_A1_times_2 mid (literal text) GAm), EV.
  destruct (strict_neq _ _) eqn:N; cbn [fst formula computed]; [now split|].
  split; [exact FB|].
  unfold strict_neq in N. destruct (computed b) as [[y|t]|]; try discriminate.
  apply negb_false_iff, strict_eq_finite in N. now subst.
Qed.

Lemma passes_A1_times_2 (n : nat) (cells cells' : CellMap)
    (text : string) (b : CellData) (s : bool) (m : positive) (e : Z) :
  Map_get "0-0" cells = Some (literal text) ->
  Map_get "0-1" cells = Some b ->
  formula b = Some "=A1*2" ->
  computed b = Some (CNumber (S754_finite s m e)) ->
  evaluateFormula_value engine "=A1*2" [("0-0", literal text)]
    = Some (CNumber (S754_finite s m e)) ->
  passes engine n cells = Normal cells' ->
  Map_get "0-0" cells' = Some (literal text) /\
  exists b', Map_get "0-1" cells' = Some b' /\
             formula b' = Some "=A1*2" /\
             computed b' = Some (CNumber (S754_finite s m e)).
Proof.
  revert cells b; induction n as [|n IH]; intros cells b GA GB FB CB EV P.
  - injection P as <-. eauto.
  - cbn [passes] in P.
    destruct (recalculation_pass engine cells) as [[c1 ch]|] eqn:E; [|discriminate].
    cbn [bind fst] in P.
    destruct (pass_A1_times_2 cells c1 ch text b s m e GA GB FB EV E)
      as (GA1 & b1 & GB1 & FB1 & CB1).
    exact (IH c1 b1 GA1 GB1 FB1 CB1 EV P).
Qed.

End Propagation.

(** C2: in a store where A1 holds the text [5], [updateCell] of B1 with
    [=A1*2] leaves 10 as the computed value of B1, and a following
    [updateCell] of A1 with [7] leaves 14 there; in the store that holds
    nothing but A1 the two calls return after one and two passes. *)
Theorem formula_propagation (engine : string -> completion jsvalue) (prev : CellMap) :
  getCellData prev 0 0 = Some (literal "5") ->
  (exists newCells,
     write_cell engine prev 0 1 "=A1*2" = Normal newCells /\
     computed_at newCells 0 1 = Some (CNumber (JSNumber.of_Z 10))) /\
  (forall fuel s1,
     updateCell engine fuel prev 0 1 "=A1*2" = Returned s1 ->
     computed_at s1 0 1 = Some (CNumber (JSNumber.of_Z 10)) /\
     forall fuel' s2,
       updateCell engine fuel' s1 0 0 "7" = Returned s2 ->
       computed_at s2 0 1 = Some (CNumber (JSNumber.of_Z 14))) /\
  (updateCell engine 1 [("0-0", literal "5")] 0 1 "=A1*2"
     = Returned [("0-0", literal "5"); ("0-1", formula_cell "=A1*2" 10)] /\
   updateCell engine 2 [("0-0", literal "5"); ("0-1", formula_cell "=A1*2" 10)] 0 0 "7"
     = Returned [("0-0", literal "7"); ("0-1", formula_cell "=A1*2" 14)]).
Proof.
  unfold getCellData, computed_at, getCellData.
  change (cellKey 0 0) with "0-0". change (cellKey 0 1) with "0-1".
  intros GA.
  assert (E10 : evaluateFormula_value engine "=A1*2" [("0-0", literal "5")]
                = Some (CNumber (JSNumber.of_Z 10))) by reflexivity.
  assert (E14 : evaluateFormula_value engine "=A1*2" [("0-0", literal "7")]
                = Some (CNumber (JSNumber.of_Z 14))) by reflexivity.
  assert (W : write_cell engine prev 0 1 "=A1*2"
              = Normal (Map_set "0-1" (formula_cell "=A1*2" 10) prev)).
  { unfold write_cell. change (cellKey 0 1) with "0-1".
    cbn [String.eqb Ascii.eqb startsWith andb Bool.eqb].
    rewrite evaluateFormula_normal.
    rewrite (evaluateFormula_A1_times_2 engine prev (literal "5") GA), E10.
    reflexivity. }
  split; [|split; [|split; reflexivity]].
  - eexists. split; [exact W|]. now rewrite Map_get_set_same.
  - intros fuel s1 R1. unfold updateCell in R1. rewrite W in R1.
    set (w1 := Map_set "0-1" (formula_cell "=A1*2" 10) prev) in *.
    pose proof (recalculate_spec engine fuel w1) as H. rewrite R1 in H.
    destruct H as (_ & _ & n & _ & P).
    destruct (passes_A1_times_2 engine n w1 s1 "5" (formula_cell "=A1*2" 10)
                false 5629499534213120 (-49)) as (GA1 & b1 & GB1 & FB1 & CB1);
      try reflexivity; try exact P.
    { unfold w1. rewrite Map_get_set_other by discriminate. exact GA. }
    { apply Map_get_set_same. }
    rewrite GB1. split; [exact CB1|].
    intros fuel' s2 R2. unfold updateCell in R2.
    change (write_cell engine s1 0 0 "7")
      with (Normal (Map_set "0-0" (literal "7") s1)) in R2.
    set (w2 := Map_set "0-0" (literal "7") s1) in *.
    pose proof (recalculate_spec engine fuel' w2) as H. rewrite R2 in H.
    destruct H as (St & Ev & _).
    assert (GA2 : Map_get "0-0" s2 = Some (literal "7")).
    { apply (evolves_get_literal w2 s2 "0-0" (literal "7") Ev); [|reflexivity].
      apply Map_get_set_same. }
    pose proof (evolves_get w2 s2 "0-1" Ev) as GB2. unfold w2 in GB2.
    rewrite Map_get_set_other, GB1 in GB2 by discriminate.
    destruct GB2 as (b2 & GB2 & _ & _ & FB2 & _). cbn [snd] in FB2.
    rewrite FB1 in FB2.
    destruct (pass_A1_times_2 engine s2 s2 false "7" b2
                false 7881299347898368 (-49) GA2 GB2 FB2 E14 St)
      as (_ & b3 & GB3 & _ & CB3).
    rewrite GB3. exact CB3.
Qed.

Lemma formula_propagation_witness :
  getCellData [("0-0", literal "5")] 0 0 = Some (literal "5") /\
  computed_at [("0-0", literal "5"); ("0-1", formula_cell "=A1*2" 10)] 0 1
    = Some (CNumber (JSNumber.of_Z 10)).
Proof.
  split; [reflexivity|].
  apply (proj1 (proj2 (formula_propagation strict_engine [("0-0", literal "5")] eq_refl))
           1%nat).
  reflexivity.
Defined.

(** * Further properties *)

(** ** The column labels and the cell keys *)

Lemma fold_letters_mono (t : string) (acc : Z) :
  0 <= acc -> all is_upper t = true ->
  acc <= fold_chars (fun col c => col * 26 + (charCode c - 64)) t acc.
Proof.
  revert acc; induction t as [|c t IH]; simpl; intros acc Hacc H; [lia|].
  apply andb_prop in H as [Hc Ht]. unfold is_upper in Hc.
  etransitivity; [|apply IH; [lia | exact Ht]]. lia.
Qed.

Lemma column_of_letters_by_length (s : string) :
  all is_upper s = true ->
  match String.length s with
  | 0%nat => column_of_letters s = 0
  | 1%nat => 1 <= column_of_letters s <= 26
  | 2%nat => 27 <= column_of_letters s <= 702
  | 3%nat => 703 <= column_of_letters s <= 18278
  | _ => 18279 <= column_of_letters s
  end.
Proof.
  unfold column_of_letters. intros H.
  destruct s as [|c1 [|c2 [|c3 [|c4 t]]]]; cbn [String.length fold_chars];
    cbn [all] in H;
    repeat match goal with
           | H : _ && _ = true |- _ => apply andb_prop in H as [? ?]
           end;
    unfold is_upper in *; try lia.
  etransitivity; [|apply fold_letters_mono; [lia | assumption]]. lia.
Qed.

(** The canonical run of the label loop, with the fuel [getColumnLabel]
    gives it. *)
Lemma getColumnLabel_loop_step (c : Z) (label : string) :
  0 <= c ->
  getColumnLabel_loop (Z.to_nat (c + 1)) c label
  = getColumnLabel_loop (Z.to_nat (c / 26 - 1 + 1)) (c / 26 - 1)
      (String (fromCharCode (65 + Z.rem c 26)) label).
Proof.
  intros Hc.
  destruct (Z.to_nat (c + 1)) as [|f] eqn:Ef; [lia|].
  cbn [getColumnLabel_loop]. replace (c >=? 0) with true by lia.
  assert (c / 26 <= c) by (apply Z.div_le_upper_bound; lia).
  apply getColumnLabel_fuel. lia.
Qed.

Lemma getColumnLabel_loop_negative (f : nat) (c : Z) (label : string) :
  c < 0 -> getColumnLabel_loop f c label = label.
Proof.
  intros Hc. destruct f; [reflexivity|]. simpl.
  now replace (c >=? 0) with false by lia.
Qed.

Lemma fromCharCode_charCode (c : ascii) : fromCharCode (charCode c) = c.
Proof.
  unfold fromCharCode, charCode. rewrite N2Z.id. apply ascii_N_embedding.
Qed.

(** Encoding the value of a run of capitals puts the run back in front. *)
Lemma getColumnLabel_loop_letters (s : string) :
  all is_upper s = true ->
  forall acc label, 0 <= acc ->
    let v := fold_chars (fun col c => col * 26 + (charCode c - 64)) s acc in
    getColumnLabel_loop (Z.to_nat (v - 1 + 1)) (v - 1) label
    = getColumnLabel_loop (Z.to_nat (acc - 1 + 1)) (acc - 1) (s ++ label).
Proof.
  induction s as [|c s IH]; intros H acc label Hacc; [reflexivity|].
  cbn [all] in H. apply andb_prop in H as [Hc Hs].
  cbn [fold_chars]. cbv zeta.
  rewrite (IH Hs (acc * 26 + (charCode c - 64)) label)
    by (unfold is_upper in Hc; lia).
  unfold is_upper in Hc.
  set (d := charCode c - 64) in *.
  assert (Hd : 1 <= d <= 26) by (unfold d; lia).
  rewrite getColumnLabel_loop_step by lia.
  assert (Hq : (acc * 26 + d - 1) / 26 = acc).
  { symmetry. apply (Z.div_unique _ 26 acc (d - 1)); lia. }
  assert (Hr : Z.rem (acc * 26 + d - 1) 26 = d - 1).
  { rewrite Z.rem_mod_nonneg by lia.
    symmetry. apply (Z.mod_unique _ 26 acc (d - 1)); lia. }
  rewrite Hq, Hr.
  replace (65 + (d - 1)) with (charCode c) by (unfold d; lia).
  now rewrite fromCharCode_charCode.
Qed.

(** X1: two different column indices, from 0 on, never get the same
    label. *)
Theorem getColumnLabel_injective (c c' : Z) :
  0 <= c -> 0 <= c' -> getColumnLabel c = getColumnLabel c' -> c = c'.
Proof.
  intros Hc Hc' E.
  destruct (getColumnLabel_spec c Hc) as (Hv & _).
  destruct (getColumnLabel_spec c' Hc') as (Hv' & _).
  rewrite E in Hv. lia.
Qed.

Lemma getColumnLabel_injective_witness :
  0 <= 27 /\ getColumnLabel 27 = getColumnLabel (26 + 1) /\ 27 = 26 + 1.
Proof.
  split; [lia|]. split; [reflexivity|].
  apply (getColumnLabel_injective 27 (26 + 1)); [lia | lia | reflexivity].
Defined.

(** X2: the label of a negative index is empty; the label of an index
    from 0 on is a non-empty run of capitals, of one letter below 26, two
    letters below 702 and three letters below 18278. *)
Theorem getColumnLabel_shape (c : Z) :
  (c < 0 -> getColumnLabel c = "") /\
  (0 <= c ->
   getColumnLabel c <> "" /\ all is_upper (getColumnLabel c) = true) /\
  (0 <= c < 26 -> String.length (getColumnLabel c) = 1%nat) /\
  (26 <= c < 702 -> String.length (getColumnLabel c) = 2%nat) /\
  (702 <= c < 18278 -> String.length (getColumnLabel c) = 3%nat).
Proof.
  split; [intros Hc; now apply getColumnLabel_loop_negative|].
  split; [intros Hc; destruct (getColumnLabel_spec c Hc) as (_ & Ha & Hn); now split|].
  assert (G : 0 <= c ->
              match String.length (getColumnLabel c) with
              | 0%nat => False
              | 1%nat => c < 26
              | 2%nat => 26 <= c < 702
              | 3%nat => 702 <= c < 18278
              | _ => 18278 <= c
              end).
  { intros Hc. destruct (getColumnLabel_spec c Hc) as (Hv & Ha & Hn).
    pose proof (column_of_letters_by_length _ Ha) as B.
    destruct (String.length (getColumnLabel c)) as [|[|[|[|n]]]]; lia. }
  repeat split; intros Hc;
    (assert (H0 : 0 <= c) by lia; specialize (G H0);
     destruct (String.length (getColumnLabel c)) as [|[|[|[|n]]]];
     [contradiction | (reflexivity || lia) ..]).
Qed.

Lemma getColumnLabel_shape_witness :
  702 <= 9999 < 18278 /\ String.length (getColumnLabel 9999) = 3%nat.
Proof.
  assert (H : 702 <= 9999 < 18278) by lia.
  split; [exact H|].
  apply (proj2 (proj2 (proj2 (proj2 (getColumnLabel_shape 9999)))) H).
Defined.

(** The value of a run of capitals grows by a factor of at most 26 with
    each letter. *)
Lemma fold_letters_bound (t : string) (acc : Z) :
  0 <= acc -> all is_upper t = true ->
  fold_chars (fun col c => col * 26 + (charCode c - 64)) t acc + 2
  <= 26 ^ Z.of_nat (String.length t) * (acc + 2).
Proof.
  revert acc; induction t as [|c t IH]; intros acc Hacc H.
  - cbn [fold_chars String.length]. change (26 ^ Z.of_nat 0) with 1. lia.
  - cbn [all] in H. apply andb_prop in H as [Hc Ht]. unfold is_upper in Hc.
    cbn [fold_chars String.length].
    etransitivity; [apply IH; [lia | exact Ht]|].
    rewrite Nat2Z.inj_succ, Z.pow_succ_r by lia.
    assert (0 < 26 ^ Z.of_nat (String.length t)) by (apply Z.pow_pos_nonneg; lia).
    nia.
Qed.

(** X3: every non-empty run of at most 11 capitals is the label of the
    column it decodes to. These are runs whose column is below [2^53],
    where the numbers of the code are the integers. *)
Theorem getColumnLabel_of_letters (s : string) :
  s <> "" -> all is_upper s = true -> (String.length s <= 11)%nat ->
  0 <= column_of_letters s - 1 < 2 ^ 53 /\
  getColumnLabel (column_of_letters s - 1) = s.
Proof.
  intros Hne Ha Hlen. split.
  - pose proof (column_of_letters_pos s Hne Ha) as Hpos.
    pose proof (fold_letters_bound s 0 (Z.le_refl 0) Ha) as B.
    fold (column_of_letters s) in B.
    assert (26 ^ Z.of_nat (String.length s) <= 26 ^ 11)
      by (apply Z.pow_le_mono_r; lia).
    change (26 ^ 11) with 3670344486987776 in *.
    change (2 ^ 53) with 9007199254740992. lia.
  - unfold getColumnLabel, column_of_letters.
    rewrite (getColumnLabel_loop_letters s Ha 0 "") by lia.
    rewrite getColumnLabel_loop_negative by lia.
    apply app_empty_r.
Qed.

Lemma getColumnLabel_of_letters_witness :
  "NTP" <> "" /\ all is_upper "NTP" = true /\
  getColumnLabel (column_of_letters "NTP" - 1) = "NTP".
Proof.
  assert (H1 : "NTP" <> "") by discriminate.
  assert (H2 : all is_upper "NTP" = true) by reflexivity.
  assert (H3 : (String.length "NTP" <= 11)%nat) by (simpl; lia).
  split; [exact H1|]. split; [exact H2|].
  apply (proj2 (getColumnLabel_of_letters "NTP" H1 H2 H3)).
Defined.

(** ** Decimal notation of the indices *)

Lemma string_of_uint_digits (d : Decimal.uint) :
  all is_digit (NilEmpty.string_of_uint d) = true.
Proof. induction d; simpl; auto. Qed.

Lemma fold_digits_of_uint_acc (d : Decimal.uint) (acc : positive) :
  fold_chars (fun n c => n * 10 + (charCode c - 48))
    (NilEmpty.string_of_uint d) (Zpos acc)
  = Zpos (Pos.of_uint_acc d acc).
Proof.
  revert acc; induction d; intros acc; cbn [NilEmpty.string_of_uint fold_chars Pos.of_uint_acc];
    [reflexivity | rewrite <- IHd; f_equal; vm_compute charCode; lia ..].
Qed.

Lemma parseInt_of_uint (d : Decimal.uint) :
  parseInt (NilEmpty.string_of_uint d) = Z.of_N (Pos.of_uint d).
Proof.
  unfold parseInt.
  induction d; cbn [NilEmpty.string_of_uint fold_chars Pos.of_uint];
    [reflexivity | exact IHd | ..];
    (etransitivity; [|apply fold_digits_of_uint_acc]); reflexivity.
Qed.

Lemma Z_to_string_positive (p : positive) :
  JSNumber.Z_to_string (Zpos p) = NilEmpty.string_of_uint (Pos.to_uint p) /\
  JSNumber.Z_to_string (Zneg p)
  = String "-" (NilEmpty.string_of_uint (Pos.to_uint p)).
Proof.
  unfold JSNumber.Z_to_string. simpl.
  pose proof (DecimalPos.Unsigned.to_uint_nonnil p) as H.
  unfold NilZero.string_of_uint. now destruct (Pos.to_uint p).
Qed.

(** The notation of an integer: an optional minus sign, then a non-empty
    run of digits. *)
Lemma Z_to_string_shape (z : Z) :
  exists digits,
    JSNumber.Z_to_string z = (if z <? 0 then "-" else "") ++ digits /\
    digits <> "" /\ all is_digit digits = true.
Proof.
  destruct z as [|p|p].
  - exists "0". now repeat split.
  - exists (NilEmpty.string_of_uint (Pos.to_uint p)).
    split; [apply Z_to_string_positive|].
    split; [|apply string_of_uint_digits].
    pose proof (DecimalPos.Unsigned.to_uint_nonnil p).
    now destruct (Pos.to_uint p).
  - exists (NilEmpty.string_of_uint (Pos.to_uint p)).
    split; [apply Z_to_string_positive|].
    split; [|apply string_of_uint_digits].
    pose proof (DecimalPos.Unsigned.to_uint_nonnil p).
    now destruct (Pos.to_uint p).
Qed.

Lemma Z_to_string_inj (a b : Z) :
  JSNumber.Z_to_string a = JSNumber.Z_to_string b -> a = b.
Proof.
  unfold JSNumber.Z_to_string. intros E.
  apply DecimalZ.to_int_inj.
  assert (N : forall z, Z.to_int z <> Decimal.Pos Decimal.Nil /\
                        Z.to_int z <> Decimal.Neg Decimal.Nil).
  { intros [|p|p]; simpl; split; try discriminate;
      intros [= H]; now apply (DecimalPos.Unsigned.to_uint_nonnil p). }
  pose proof (NilZero.isi (Z.to_int a) (proj1 (N a)) (proj2 (N a))) as Ha.
  pose proof (NilZero.isi (Z.to_int b) (proj1 (N b)) (proj2 (N b))) as Hb.
  rewrite E in Ha. congruence.
Qed.

Lemma parseInt_Z_to_string (n : Z) :
  0 <= n -> parseInt (JSNumber.Z_to_string n) = n.
Proof.
  destruct n as [|p|p]; [reflexivity | | lia]. intros _.
  rewrite (proj1 (Z_to_string_positive p)), parseInt_of_uint.
  now rewrite DecimalPos.Unsigned.of_to.
Qed.

Lemma digits_then_dash (d d' r r' : string) :
  all is_digit d = true -> all is_digit d' = true ->
  d ++ String "-" r = d' ++ String "-" r' -> d = d' /\ r = r'.
Proof.
  intros Hd Hd' E.
  pose proof (span_app is_digit d (String "-" r) Hd) as S1.
  pose proof (span_app is_digit d' (String "-" r') Hd') as S2.
  rewrite E in S1. rewrite S1 in S2. cbn in S2.
  rewrite !app_empty_r in S2. now injection S2 as -> ->.
Qed.

(** A key splits in one way only into the notations of a row and of a
    column. *)
Lemma cellKey_notations (r c r' c' : Z) :
  cellKey r c = cellKey r' c' ->
  JSNumber.Z_to_string r = JSNumber.Z_to_string r' /\
  JSNumber.Z_to_string c = JSNumber.Z_to_string c'.
Proof.
  unfold cellKey. intros E.
  destruct (Z_to_string_shape r) as (d & Er & Hn & Hd).
  destruct (Z_to_string_shape r') as (d' & Er' & Hn' & Hd').
  assert (K : d = d' /\ (r <? 0) = (r' <? 0) /\
              JSNumber.Z_to_string c = JSNumber.Z_to_string c').
  { rewrite Er, Er' in E.
    destruct d as [|x d]; [congruence|]. destruct d' as [|x' d']; [congruence|].
    assert (Hx : x <> "-"%char)
      by (intros ->; cbn in Hd; discriminate).
    assert (Hx' : x' <> "-"%char)
      by (intros ->; cbn in Hd'; discriminate).
    destruct (r <? 0), (r' <? 0); cbn [append] in E.
    - apply (f_equal substring1) in E. cbn [substring1] in E.
      destruct (digits_then_dash (String x d) (String x' d') _ _ Hd Hd' E) as [-> ->].
      auto.
    - injection E as E1 _. congruence.
    - injection E as E1 _. congruence.
    - destruct (digits_then_dash (String x d) (String x' d') _ _ Hd Hd' E) as [-> ->].
      auto. }
  destruct K as (-> & Hs & Ec).
  split; [|exact Ec]. rewrite Er, Er'. now rewrite Hs.
Qed.

Lemma cellKey_inj (r c r' c' : Z) :
  cellKey r c = cellKey r' c' -> r = r' /\ c = c'.
Proof.
  intros E. apply cellKey_notations in E as [Hr Hc].
  split; now apply Z_to_string_inj.
Qed.

(** X4: the key [`${row}-${col}`] determines the row and the column: two
    addresses with the same key are the same address. *)
Theorem cellKey_injective (r c r' c' : Z) :
  cellKey r c = cellKey r' c' -> r = r' /\ c = c'.
Proof.
  intros E.
  destruct (cellKey_notations r c r' c' E) as [Hr Hc].
  apply Z_to_string_inj in Hr, Hc.
  now split.
Qed.

Lemma cellKey_injective_witness :
  cellKey (-1) 10 = cellKey (0 - 1) (5 + 5) /\ -1 = 0 - 1 /\ 10 = 5 + 5.
Proof.
  split; [reflexivity|].
  apply (cellKey_injective (-1) 10 (0 - 1) (5 + 5)). reflexivity.
Defined.

(** X5: the label shown for the selected cell decodes to that cell: for a
    row and a column from 0 on, [parseReference] of the column label
    followed by the row number plus one is the address itself. *)
Theorem addressLabel_roundtrip (st : Component.State) :
  0 <= row (Component.selectedCell st) ->
  0 <= col (Component.selectedCell st) ->
  parseReference (Component.addressLabel st) = Some (Component.selectedCell st).
Proof.
  destruct st as [cs [r c] ed ev top left]. cbn [Component.selectedCell row col].
  intros Hr Hc. unfold Component.addressLabel. cbn [Component.selectedCell row col].
  destruct (getColumnLabel_spec c Hc) as (Hv & Hall & Hne).
  destruct (Z_to_string_shape (r + 1)) as (d & Ed & Hdn & Hd).
  replace (r + 1 <? 0) with false in Ed by lia. cbn [append] in Ed.
  unfold parseReference.
  rewrite Ed, (match_reference_app (getColumnLabel c) d Hne Hdn Hall Hd).
  rewrite <- Ed, parseInt_Z_to_string by lia.
  f_equal. f_equal; lia.
Qed.

Lemma addressLabel_roundtrip_witness :
  parseReference
    (Component.addressLabel
       (Component.mkState [] (mkPos 11 52) None "" 0 0))
  = Some (mkPos 11 52).
Proof.
  apply (addressLabel_roundtrip (Component.mkState [] (mkPos 11 52) None "" 0 0));
    simpl; lia.
Defined.

(** ** The store under an edit *)

Local Open Scope list_scope.





Section SweepFacts.

Variable engine : string -> completion jsvalue.


(** In a sweep over formula-free entries nothing happens. *)
Lemma forEach_cells_literals (pending visited : CellMap) (changed : bool) :
  Forall (fun entry => formula (snd entry) = None) pending ->
  forEach_cells engine visited pending changed
  = Normal (rev visited ++ pending, changed).
Proof.
  revert visited changed.
  induction pending as [|[key cell] rest IH]; intros visited changed H; simpl.
  - now rewrite app_nil_r.
  - inversion H as [|? ? Hc Hrest]; subst. simpl in Hc.
    rewrite visit_normal. unfold visit_value. rewrite Hc. simpl.
    rewrite IH by exact Hrest. simpl. now rewrite <- app_assoc.
Qed.





End SweepFacts.

Section StoreExtras.

Variable engine : string -> completion jsvalue.



End StoreExtras.





(** X8: on a sheet without formulas a literal edit always returns, after
    a single pass, with exactly the direct write: the entry deleted for the
    empty text, set to the literal otherwise. *)
Theorem updateCell_literal_sheet (engine : string -> completion jsvalue)
    (prev : CellMap) (r c : Z) (v : string) :
  Forall (fun entry => formula (snd entry) = None) prev ->
  startsWith v "=" = false ->
  updateCell engine 1 prev r c v
  = Returned (if String.eqb v ""
              then Map_delete (cellKey r c) prev
              else Map_set (cellKey r c) (literal v) prev).
Proof.
  intros Hprev Hs. unfold updateCell, write_cell. rewrite Hs.
  assert (G : forall s, Forall (fun entry => formula (snd entry) = None) s ->
                        recalculate engine 1 s = Returned s).
  { intros s Hall. cbn [recalculate]. unfold recalculation_pass.
    now rewrite (forEach_cells_literals engine s [] false Hall). }
  destruct (String.eqb v ""); cbn [bind]; apply G.
  - apply Forall_forall. intros e He. apply filter_In in He as [He _].
    revert e He. now apply Forall_forall.
  - apply Forall_forall. intros e He. apply Map_set_In in He as [->|He];
      [reflexivity|]. revert e He. now apply Forall_forall.
Qed.

Lemma updateCell_literal_sheet_witness :
  Forall (fun entry => formula (snd entry) = None) [("0-0", literal "5")] /\
  updateCell strict_engine 1 [("0-0", literal "5")] 3 4 "total"
  = Returned [("0-0", literal "5"); ("3-4", literal "total")].
Proof.
  assert (H : Forall (fun entry => formula (snd entry) = None) [("0-0", literal "5")])
    by (repeat constructor).
  split; [exact H|].
  apply (updateCell_literal_sheet strict_engine [("0-0", literal "5")] 3 4 "total" H).
  reflexivity.
Defined.







(** ** What a formula reads *)

Local Open Scope string_scope.
Local Open Scope Z_scope.

Lemma replace_references_ext (cb cb' : string -> string) (fuel : nat) (s : string) :
  (forall m, In m (reference_matches fuel s) -> cb m = cb' m) ->
  replace_references fuel cb s = replace_references fuel cb' s.
Proof.
  revert s; induction fuel as [|fuel IH]; intros s H; [reflexivity|].
  destruct s as [|c rest]; [reflexivity|].
  cbn [replace_references reference_matches] in *.
  destruct (span is_upper (String c rest)) as [letters r1].
  destruct (is_empty letters).
  - f_equal. now apply IH.
  - destruct (span is_digit r1) as [digits r2].
    destruct (is_empty digits).
    + f_equal. now apply IH.
    + rewrite (H (letters ++ digits)) by now left.
      f_equal. apply IH. intros m Hm. apply H. now right.
Qed.

Lemma reference_matches_none (fuel : nat) (s : string) :
  all (fun c => negb (is_upper c)) s = true -> reference_matches fuel s = [].
Proof.
  revert s; induction fuel as [|fuel IH]; intros s H; [reflexivity|].
  destruct s as [|c rest]; [reflexivity|].
  cbn [all] in H. apply andb_prop in H as [Hc Hrest].
  cbn [reference_matches span].
  apply negb_true_iff in Hc. rewrite Hc. cbn [is_empty].
  now apply IH.
Qed.

Lemma substitute_effective_text (cells : CellMap) (m : string) (pos : CellPosition) :
  parseReference m = Some pos ->
  substitute cells m = effective_text (getCellData cells (row pos) (col pos)).
Proof. unfold substitute. now intros ->. Qed.

(** A text without a capital letter goes through [replace] as it is. *)
Lemma replace_references_none (cb : string -> string) (fuel : nat) (s : string) :
  all (fun c => negb (is_upper c)) s = true -> replace_references fuel cb s = s.
Proof.
  revert s; induction fuel as [|fuel IH]; intros s H; [reflexivity|].
  destruct s as [|c rest]; [reflexivity|].
  cbn [all] in H. apply andb_prop in H as [Hc Hrest].
  cbn [replace_references span].
  apply negb_true_iff in Hc. rewrite Hc. cbn [is_empty].
  f_equal. now apply IH.
Qed.

Lemma referenced_cells_In (f m : string) (pos : CellPosition) :
  In m (reference_matches (String.length (substring1 f)) (substring1 f)) ->
  parseReference m = Some pos ->
  In pos (referenced_cells f).
Proof.
  intros Hm P. unfold referenced_cells. cbv zeta. apply in_flat_map.
  exists m. split; [exact Hm|]. rewrite P. now left.
Qed.

Section ReadFacts.

Variable engine : string -> completion jsvalue.

Lemma evaluateFormula_value_reads (f : string) (cells cells' : CellMap) :
  (forall pos, In pos (referenced_cells f) ->
     effective_text (getCellData cells (row pos) (col pos))
     = effective_text (getCellData cells' (row pos) (col pos))) ->
  evaluateFormula_value engine f cells = evaluateFormula_value engine f cells'.
Proof.
  intros H. unfold evaluateFormula_value, evaluateFormula_try. cbv zeta.
  rewrite (replace_references_ext (substitute cells) (substitute cells'));
    [reflexivity|].
  intros m Hm. destruct (parseReference m) as [pos|] eqn:P.
  - rewrite !(substitute_effective_text _ m pos P).
    apply H. now apply (referenced_cells_In f m).
  - unfold substitute. now rewrite P.
Qed.

End ReadFacts.

(** X12: the text that [evaluateFormula] hands to [Function] depends on
    the store only through the cells the formula refers to, and on each of
    them only through the text put in its place: the cached value as a
    string, else the raw text read as a number, else 0. Two stores that
    give the same texts at the referenced addresses give the same function
    text. *)
Theorem function_body_reads (f : string) (cells cells' : CellMap) :
  (forall pos, In pos (referenced_cells f) ->
     effective_text (getCellData cells (row pos) (col pos))
     = effective_text (getCellData cells' (row pos) (col pos))) ->
  function_body f cells = function_body f cells'.
Proof.
  intros H. unfold function_body. cbv zeta. do 2 f_equal. f_equal.
  apply replace_references_ext. intros m Hm.
  destruct (parseReference m) as [pos|] eqn:P.
  - rewrite !(substitute_effective_text _ m pos P).
    apply H. now apply (referenced_cells_In f m).
  - unfold substitute. now rewrite P.
Qed.

Lemma function_body_reads_witness :
  function_body "=A1*2+C7"
    [("0-0", literal "5"); ("0-1", formula_cell "=A1*2" 10)]
  = function_body "=A1*2+C7"
    [("6-2", literal "n/a"); ("0-0", formula_cell "=2+3" 5)].
Proof.
  apply (function_body_reads "=A1*2+C7"
           [("0-0", literal "5"); ("0-1", formula_cell "=A1*2" 10)]
           [("6-2", literal "n/a"); ("0-0", formula_cell "=2+3" 5)]).
  intros pos [<-|[<-|[]]]; reflexivity.
Defined.

(** X13: a formula without a capital letter refers to no cell, and the
    text handed to [Function] is its expression as typed, whatever the
    store holds. *)
Theorem function_body_no_capital (f : string) (cells : CellMap) :
  all (fun c => negb (is_upper c)) (substring1 f) = true ->
  referenced_cells f = [] /\
  function_body f cells = body_prefix ++ "(" ++ substring1 f ++ ")".
Proof.
  intros H. split.
  - unfold referenced_cells. cbv zeta.
    now rewrite (reference_matches_none _ _ H).
  - unfold function_body. cbv zeta.
    now rewrite (replace_references_none _ _ _ H).
Qed.

Lemma function_body_no_capital_witness :
  all (fun c => negb (is_upper c)) (substring1 "=(1+2)*3") = true /\
  function_body "=(1+2)*3" [("0-0", literal "5")]
  = body_prefix ++ "(" ++ "(1+2)*3" ++ ")".
Proof.
  assert (H : all (fun c => negb (is_upper c)) (substring1 "=(1+2)*3") = true)
    by reflexivity.
  split; [exact H|].
  apply (function_body_no_capital "=(1+2)*3" [("0-0", literal "5")] H).
Defined.

(** ** Sheets whose formulas refer to literals only *)

Local Open Scope list_scope.

Lemma Forall2_In_right {A B : Type} (R : A -> B -> Prop) (l : list A) (l' : list B) (y : B) :
  Forall2 R l l' -> In y l' -> exists x, In x l /\ R x y.
Proof.
  induction 1 as [|x0 y0 l l' HR _ IH]; intros Hin; [contradiction|].
  destruct Hin as [<-|Hin].
  - exists x0. split; [now left | exact HR].
  - destruct (IH Hin) as (x & Hx & Hxy). exists x. split; [now right | exact Hxy].
Qed.

Lemma strict_neq_same (v : option computed_value) :
  v <> Some (CNumber JSNumber.NaN) -> strict_neq v v = false.
Proof.
  destruct v as [[x|s]|]; cbn; intros H; [| |reflexivity].
  - apply negb_false_iff. unfold JSNumber.strict_eq, SFeqb, SFcompare.
    destruct x as [[|]|[|]| |[|] m e]; try reflexivity.
    + now contradiction H.
    + now rewrite Z.compare_refl, Pos.compare_cont_refl.
    + now rewrite Z.compare_refl, Pos.compare_cont_refl.
  - now rewrite String.eqb_refl.
Qed.

Section Convergence.

Variable engine : string -> completion jsvalue.

(** Every entry a sweep returns is the visit of the entry it was, made
    while the store was some evolution of the given one. *)
Lemma forEach_cells_visits (pending visited : CellMap) (changed : bool) :
  exists pending' changed',
    forEach_cells engine visited pending changed
      = Normal (rev visited ++ pending', changed') /\
    Forall2 (fun old new =>
               fst new = fst old /\
               exists mid, evolves (rev visited ++ pending) mid /\
                           snd new = fst (visit_value engine mid (snd old)))
            pending pending'.
Proof.
  revert visited changed.
  induction pending as [|[key cell] rest IH]; intros visited changed; simpl.
  - exists [], changed. rewrite app_nil_r. split; [reflexivity | constructor].
  - rewrite visit_normal. simpl. rewrite rev_append_rev.
    set (mid0 := rev visited ++ (key, cell) :: rest).
    set (r := visit_value engine mid0 cell).
    destruct (IH ((key, fst r) :: visited) (snd r || changed)%bool)
      as (rest' & ch' & E & F).
    exists ((key, fst r) :: rest'), ch'. split.
    + rewrite E. simpl. now rewrite <- app_assoc.
    + constructor.
      * split; [reflexivity|]. exists mid0. split; [apply evolves_refl | reflexivity].
      * eapply Forall2_impl; [|exact F].
        intros old new (K & mid & Em & Hn). split; [exact K|].
        exists mid. split; [|exact Hn].
        eapply evolves_trans; [|exact Em].
        simpl. rewrite <- app_assoc. simpl. unfold mid0.
        apply evolves_app; [apply evolves_refl|].
        constructor; [apply visit_value_step | apply evolves_refl].
Qed.

(** A sweep over entries that their visits leave alone reports no
    change. *)
Lemma forEach_cells_all_unchanged (pending visited : CellMap) (changed : bool) :
  Forall (fun entry =>
            snd (visit_value engine (rev visited ++ pending) (snd entry)) = false)
         pending ->
  forEach_cells engine visited pending changed
  = Normal (rev visited ++ pending, changed).
Proof.
  revert visited changed.
  induction pending as [|[key cell] rest IH]; intros visited changed H; simpl.
  - now rewrite app_nil_r.
  - inversion H as [|? ? Hc Hrest]; subst. cbn [snd] in Hc.
    rewrite visit_normal. cbn [bind]. rewrite rev_append_rev.
    rewrite (visit_value_unchanged engine _ cell Hc), Hc. cbn [orb].
    rewrite IH; cbn [rev]; rewrite <- app_assoc; [reflexivity | exact Hrest].
Qed.

(** In a one-level store the value of a formula is the same on every
    evolution of the store. *)
Lemma one_level_value (cells mid : CellMap) (key : string) (cell : CellData) (f : string) :
  one_level cells -> evolves cells mid ->
  In (key, cell) cells -> formula cell = Some f ->
  evaluateFormula_value engine f mid = evaluateFormula_value engine f cells.
Proof.
  intros L Ev Hin Hf. apply evaluateFormula_value_reads.
  intros pos Hpos. specialize (L key cell f pos Hin Hf Hpos).
  unfold getCellData in *.
  destruct (Map_get (cellKey (row pos) (col pos)) cells) as [target|] eqn:G.
  - now rewrite (evolves_get_literal cells mid _ target Ev G L).
  - now rewrite (evolves_absent cells mid _ Ev G).
Qed.

Lemma one_level_second_pass (cells c1 : CellMap) (ch : bool) :
  one_level cells -> no_NaN engine cells ->
  recalculation_pass engine cells = Normal (c1, ch) ->
  recalculation_pass engine c1 = Normal (c1, false).
Proof.
  intros L N P. unfold recalculation_pass in *.
  destruct (forEach_cells_visits cells [] false) as (c1' & ch' & E & F).
  destruct (forEach_cells_spec engine cells [] false) as (c1'' & ch'' & E' & Ev & _).
  rewrite P in E, E'. cbn [rev app] in E, E'.
  injection E as <- _. injection E' as <- _.
  apply (forEach_cells_all_unchanged c1 [] false).
  apply Forall_forall. intros [k cell'] Hin. cbn [rev app snd].
  destruct (Forall2_In_right _ _ _ _ F Hin) as ([k0 old] & Hold & K & mid & Em & Hn).
  cbn [fst snd rev app] in *. subst k0.
  rewrite Hn. unfold visit_value at 2.
  destruct (formula old) as [f|] eqn:Hf.
  2:{ cbn [fst]. unfold visit_value. now rewrite Hf. }
  destruct (truthy (Some f)) eqn:T.
  2:{ cbn [fst]. unfold visit_value. now rewrite Hf, T. }
  rewrite (one_level_value cells mid k old f L Em Hold Hf).
  set (v0 := evaluateFormula_value engine f cells).
  assert (Hv0 : v0 <> Some (CNumber JSNumber.NaN)).
  { intros E0. apply (N k old f Hold Hf).
    rewrite evaluateFormula_normal. fold v0. now rewrite E0. }
  assert (Hv1 : evaluateFormula_value engine f c1 = v0)
    by exact (one_level_value cells c1 k old f L Ev Hold Hf).
  destruct (strict_neq v0 (computed old)) eqn:S; cbn [fst].
  - unfold visit_value. cbn [formula value computed]. rewrite T, Hv1.
    now rewrite (strict_neq_same v0 Hv0).
  - unfold visit_value. rewrite Hf, T, Hv1. now rewrite S.
Qed.

(** A text of the arithmetic fragment has its value on every engine. *)
Lemma arithmetic_no_NaN (cells : CellMap) :
  arithmetic_sheet cells -> no_NaN engine cells.
Proof.
  intros A key cell f Hin Hf.
  destruct (A key cell f Hin Hf) as (x & E & Hx).
  assert (E' : Function_call engine (function_body f cells) = Normal (JNumber x)).
  { revert E. unfold Function_call.
    destruct (strip_prefix body_prefix (function_body f cells)) as [text|];
      [|discriminate].
    now destruct (Arithmetic.evaluate text). }
  unfold evaluateFormula. rewrite evaluateFormula_try_body, E'. cbn.
  intros [= ->]. discriminate.
Qed.

End Convergence.

(** X14: when, after the direct write, every formula of the store refers
    only to empty cells and to literal cells and, with their texts put in,
    is plain arithmetic with a value other than [NaN], [updateCell] returns
    after at most two passes. *)
Theorem updateCell_one_level_returns (engine : string -> completion jsvalue)
    (prev : CellMap) (r c : Z) (v : string) (newCells : CellMap) :
  write_cell engine prev r c v = Normal newCells ->
  one_level newCells ->
  arithmetic_sheet newCells ->
  exists cells', updateCell engine 2 prev r c v = Returned cells'.
Proof.
  intros W L A. unfold updateCell. rewrite W. cbn [recalculate].
  pose proof (arithmetic_no_NaN engine newCells A) as N.
  destruct (recalculation_pass_spec engine newCells) as (c1 & ch & P & _).
  rewrite P. destruct ch; [|eauto].
  rewrite (one_level_second_pass engine newCells c1 true L N P). eauto.
Qed.

Lemma updateCell_one_level_returns_witness :
  exists cells',
    updateCell strict_engine 2
      [("0-0", literal "5"); ("0-1", formula_cell "=A1*2" 10)] 0 0 "7"
    = Returned cells'.
Proof.
  apply (updateCell_one_level_returns strict_engine
           [("0-0", literal "5"); ("0-1", formula_cell "=A1*2" 10)] 0 0 "7"
           [("0-0", literal "7"); ("0-1", formula_cell "=A1*2" 10)]).
  - reflexivity.
  - intros key cell f pos [E|[E|[]]] Hf Hpos; injection E as <- <-;
      cbn in Hf; [discriminate|]. injection Hf as <-.
    destruct Hpos as [<-|[]]. reflexivity.
  - intros key cell f [E|[E|[]]] Hf; injection E as <- <-;
      cbn in Hf; [discriminate|]. injection Hf as <-.
    exists (JSNumber.of_Z 14). split; reflexivity.
Defined.

(** ** The rendered window *)

Lemma renderedCells_In (range : VisibleRange) (r c : Z) :
  In (r, c) (Component.renderedCells range) <->
  startRow range <= r < endRow range /\ startCol range <= c < endCol range.
Proof.
  unfold Component.renderedCells. rewrite in_flat_map. split.
  - intros (i & Hi & Hin). apply in_map_iff in Hin as (j & E & Hj).
    apply in_seq in Hi, Hj. injection E as <- <-. lia.
  - intros [Hr Hc]. exists (Z.to_nat (r - startRow range)).
    split; [apply in_seq; lia|]. apply in_map_iff.
    exists (Z.to_nat (c - startCol range)).
    split; [f_equal; lia | apply in_seq; lia].
Qed.

Lemma renderedCells_length (range : VisibleRange) :
  List.length (Component.renderedCells range)
  = (Z.to_nat (endRow range - startRow range)
     * Z.to_nat (endCol range - startCol range))%nat.
Proof.
  unfold Component.renderedCells.
  set (m := Z.to_nat (endCol range - startCol range)).
  assert (G : forall rows : list nat,
            List.length
              (flat_map
                 (fun i => map (fun j => (startRow range + Z.of_nat i,
                                          startCol range + Z.of_nat j)) (seq 0 m))
                 rows)
            = (List.length rows * m)%nat).
  { induction rows as [|i rows IH]; simpl; [reflexivity|].
    now rewrite length_app, length_map, length_seq, IH. }
  now rewrite G, length_seq.
Qed.

Lemma renderedCells_NoDup (range : VisibleRange) :
  NoDup (Component.renderedCells range).
Proof.
  unfold Component.renderedCells.
  assert (G : forall rows cols : list nat, NoDup rows -> NoDup cols ->
              NoDup (flat_map
                       (fun i => map (fun j => (startRow range + Z.of_nat i,
                                                startCol range + Z.of_nat j)) cols)
                       rows)).
  { intros rows cols Hrows Hcols.
    induction Hrows as [|i rows Hi _ IH]; simpl; [constructor|].
    apply NoDup_app.
    - apply NoDup_map_NoDup_ForallPairs; [|exact Hcols].
      intros j j' _ _ E. injection E as E. lia.
    - exact IH.
    - intros [r c] H1 H2.
      apply in_map_iff in H1 as (j & E1 & _).
      apply in_flat_map in H2 as (i' & Hi' & H2).
      apply in_map_iff in H2 as (j' & E2 & _).
      injection E1 as E1 _. injection E2 as E2 _.
      apply Hi. replace i with i' by lia. exact Hi'. }
  apply G; apply seq_NoDup.
Qed.

Lemma useMemo_visibleRange_computed (previous : option Component.Memo)
    (scrollTop scrollLeft height width : Z) :
  Component.computes_window previous scrollTop scrollLeft ->
  Component.memoValue
    (Component.useMemo_visibleRange previous scrollTop scrollLeft height width)
  = visibleRange scrollTop scrollLeft height width.
Proof.
  unfold Component.useMemo_visibleRange, Component.computes_window.
  destruct previous as [memo|]; [|reflexivity].
  intros H.
  destruct (Z.eqb_spec (Component.memoScrollTop memo) scrollTop);
    destruct (Z.eqb_spec (Component.memoScrollLeft memo) scrollLeft);
    cbn [andb]; try reflexivity.
  now destruct H.
Qed.

(** X15: in a render that computes the window (the first one, and every
    one in which a scroll offset differs from that of the render before)
    the window covers the viewport. Every pixel of the viewport that lies
    on the grid lies in the box of a rendered cell: the cell of row
    [floor(y / CELL_HEIGHT)] and column [floor(x / CELL_WIDTH)] is rendered,
    and its box, placed at [top] and [left], contains the pixel. A render
    with the offsets of the render before keeps the window of that render,
    whatever the size of the viewport has become. *)
Theorem visibleRange_covers_viewport (previous : option Component.Memo)
    (scrollTop scrollLeft height width : Z) :
  (Component.computes_window previous scrollTop scrollLeft ->
   forall y x,
     scrollTop <= y < scrollTop + height ->
     scrollLeft <= x < scrollLeft + width ->
     y < TOTAL_ROWS * CELL_HEIGHT ->
     x < TOTAL_COLS * CELL_WIDTH ->
     let r := y / CELL_HEIGHT in
     let c := x / CELL_WIDTH in
     In (r, c)
        (Component.renderedCells
           (Component.memoValue
              (Component.useMemo_visibleRange previous scrollTop scrollLeft
                 height width))) /\
     Component.cell_top r <= y < Component.cell_top r + CELL_HEIGHT /\
     Component.cell_left c <= x < Component.cell_left c + CELL_WIDTH) /\
  (forall memo,
     previous = Some memo ->
     Component.memoScrollTop memo = scrollTop ->
     Component.memoScrollLeft memo = scrollLeft ->
     Component.useMemo_visibleRange previous scrollTop scrollLeft height width
     = memo).
Proof.
  split.
  - intros Hc y x Hy Hx Hty Htx r c. subst r c.
    rewrite (useMemo_visibleRange_computed _ _ _ _ _ Hc).
    rewrite renderedCells_In.
    unfold visibleRange, Component.cell_top, Component.cell_left,
      TOTAL_ROWS, TOTAL_COLS, CELL_HEIGHT, CELL_WIDTH in *.
    cbn [startRow endRow startCol endCol].
    Z.div_mod_to_equations. lia.
  - intros memo -> <- <-. unfold Component.useMemo_visibleRange.
    now rewrite !Z.eqb_refl.
Qed.

Lemma visibleRange_covers_viewport_witness :
  In (299999 / CELL_HEIGHT, 0 / CELL_WIDTH)
     (Component.renderedCells
        (Component.memoValue
           (Component.useMemo_visibleRange
              (Some (Component.mkMemo 0 0 (visibleRange 0 0 600 800)))
              299400 0 600 800))).
Proof.
  apply (proj1 (visibleRange_covers_viewport
                  (Some (Component.mkMemo 0 0 (visibleRange 0 0 600 800)))
                  299400 0 600 800));
    unfold Component.computes_window, TOTAL_ROWS, TOTAL_COLS, CELL_HEIGHT, CELL_WIDTH;
    cbn [Component.memoScrollTop Component.memoScrollLeft]; lia.
Defined.

(** X16: in a render that computes the window, the number of rendered
    cells depends on the size of the viewport and not on the size of the
    grid: for a viewport of non-negative size it is at most
    [(floor(height / CELL_HEIGHT) + 2) * (floor(width / CELL_WIDTH) + 2)]. *)
Theorem renderedCells_bounded (previous : option Component.Memo)
    (scrollTop scrollLeft height width : Z) :
  Component.computes_window previous scrollTop scrollLeft ->
  0 <= height -> 0 <= width ->
  Z.of_nat (List.length
              (Component.renderedCells
                 (Component.memoValue
                    (Component.useMemo_visibleRange previous scrollTop scrollLeft
                       height width))))
  <= (height / CELL_HEIGHT + 2) * (width / CELL_WIDTH + 2).
Proof.
  intros Hc Hh Hw. rewrite (useMemo_visibleRange_computed _ _ _ _ _ Hc).
  rewrite renderedCells_length.
  unfold visibleRange, TOTAL_ROWS, TOTAL_COLS, CELL_HEIGHT, CELL_WIDTH.
  cbn [startRow endRow startCol endCol].
  assert (0 <= height / 30) by (apply Z.div_pos; lia).
  assert (0 <= width / 100) by (apply Z.div_pos; lia).
  set (a := scrollTop / 30) in *. set (b := height / 30) in *.
  set (a' := scrollLeft / 100) in *. set (b' := width / 100) in *.
  rewrite Nat2Z.inj_mul.
  apply Z.mul_le_mono_nonneg; lia.
Qed.

Lemma renderedCells_bounded_witness :
  Z.of_nat (List.length
              (Component.renderedCells
                 (Component.memoValue
                    (Component.useMemo_visibleRange None 299400 999200 600 800))))
  <= (600 / CELL_HEIGHT + 2) * (800 / CELL_WIDTH + 2).
Proof.
  apply (renderedCells_bounded None 299400 999200 600 800); [exact I | lia | lia].
Defined.

(** X17: for scroll offsets from 0 on, every rendered cell is a cell of
    the grid: its row is below [TOTAL_ROWS], its column below [TOTAL_COLS],
    and neither is negative. *)
Theorem renderedCells_in_grid (scrollTop scrollLeft height width r c : Z) :
  0 <= scrollTop -> 0 <= scrollLeft ->
  In (r, c) (Component.renderedCells (visibleRange scrollTop scrollLeft height width)) ->
  0 <= r < TOTAL_ROWS /\ 0 <= c < TOTAL_COLS.
Proof.
  intros Ht Hl. rewrite renderedCells_In.
  unfold visibleRange, TOTAL_ROWS, TOTAL_COLS, CELL_HEIGHT, CELL_WIDTH.
  cbn [startRow endRow startCol endCol].
  assert (0 <= scrollTop / 30) by (apply Z.div_pos; lia).
  assert (0 <= scrollLeft / 100) by (apply Z.div_pos; lia).
  lia.
Qed.

Lemma renderedCells_in_grid_witness :
  0 <= 9999 < TOTAL_ROWS /\ 0 <= 9992 < TOTAL_COLS.
Proof.
  apply (renderedCells_in_grid 299400 999200 600 800 9999 9992); [lia | lia |].
  apply renderedCells_In. vm_compute. intuition congruence.
Defined.

(** X18: the rendered cells are pairwise distinct and so are their React
    keys [`${row}-${col}`]. *)
Theorem renderedCells_keys_distinct (range : VisibleRange) :
  NoDup (map (fun rc => cellKey (fst rc) (snd rc)) (Component.renderedCells range)).
Proof.
  apply NoDup_map_NoDup_ForallPairs; [|apply renderedCells_NoDup].
  intros [r c] [r' c'] _ _ E. cbn [fst snd] in E.
  apply cellKey_inj in E as [-> ->]. reflexivity.
Qed.

(** ** The component *)


Section ComponentFacts.

Variable engine : string -> completion jsvalue.


End ComponentFacts.








